(** * PointCloudLibrary/discord-bot: the fetch / rate-limit / filter / select
      pipeline of [main.py], embedded in Rocq.

    The Python coroutines and asynchronous generators of [main.py] are
    embedded as terms of a small resumption monad [proc Y R]: a computation
    that may yield values of type [Y] to its consumer, performs the effects
    the source performs (HTTP requests, clock reads and conversions to local
    time, random draws, sleeps, messages) and ends with a value of type [R],
    an exception, or never (a [while True] loop that exhausted its fuel).  A
    generator is lazy: the part of the term after a [Yield] only runs if the
    consumer pulls again.

    Conventions.
    - JSON values are the Python objects [response.json()] returns.
    - A Python [str] is held as its UTF-8 encoding; [len] and iteration go
      by characters, not bytes.
    - Time is counted in microseconds, the resolution of [datetime].  A naive
      [datetime] is the number of microseconds its wall-clock reading stands
      for: the instant plus the UTC offset the local zone has at that instant,
      so the difference of two naive datetimes is off by the change of the
      offset between them.  A [timedelta] of [d] microseconds has
      [total_seconds() + 1 > 61] exactly when [d + 1000000 > 61000000],
      because both roundings involved are monotone and 60.0 and 61.0 are
      floats.
    - [print] calls write to the standard output only and are left out. *)

From Stdlib Require Import ZArith List String Ascii Bool Lia.
From Stdlib Require Import DecimalString DecimalZ DecimalPos.
Import ListNotations.
Local Open Scope string_scope.
Local Open Scope Z_scope.
Set Warnings "-register-all".

(* ================================================================= *)
(** ** Python values and built-ins *)

Module Py.

(** Numbers are integers: the fields the program reads hold no fraction. *)
Inductive json : Type :=
| JNull
| JBool (b : bool)
| JInt (n : Z)
| JStr (s : string)
| JList (l : list json)
| JDict (d : list (string * json)).

Inductive exn : Type :=
| KeyError (key : string)
| TypeError
| IndexError
| UnboundLocalError
| ClientError
| OverflowError.

Inductive result (A : Type) : Type :=
| Ok (a : A)
| Err (e : exn).
Arguments Ok {A} a.
Arguments Err {A} e.

(** [d.get(key)] on the association list of a dict. *)
Fixpoint assoc (key : string) (d : list (string * json)) : option json :=
  match d with
  | [] => None
  | (k, v) :: d' => if String.eqb k key then Some v else assoc key d'
  end.

(** [x[key]] with a string key. *)
Definition getitem (x : json) (key : string) : result json :=
  match x with
  | JDict d =>
      match assoc key d with
      | Some v => Ok v
      | None => Err (KeyError key)
      end
  | _ => Err TypeError
  end.

(** A byte [10xxxxxx] of a UTF-8 string continues the character begun before
    it. *)
Definition continuation (c : ascii) : bool :=
  match c with
  | Ascii _ _ _ _ _ _ b6 b7 => b7 && negb b6
  end.

(** The characters of a string: each leading byte with the continuation bytes
    that follow it. *)
Fixpoint characters (s : string) : list string :=
  match s with
  | EmptyString => []
  | String c s' =>
      let rest := characters s' in
      match s' with
      | String d _ =>
          if continuation d then
            match rest with
            | g :: rest' => String c g :: rest'
            | [] => [String c EmptyString]
            end
          else String c EmptyString :: rest
      | EmptyString => [String c EmptyString]
      end
  end.

Definition chars (s : string) : list json := map JStr (characters s).

(** [iter(x)], as used by a [for] loop. *)
Definition iter (x : json) : result (list json) :=
  match x with
  | JList l => Ok l
  | JDict d => Ok (map (fun kv => JStr (fst kv)) d)
  | JStr s => Ok (chars s)
  | _ => Err TypeError
  end.

(** [len(x)]. *)
Definition len (x : json) : result Z :=
  match x with
  | JList l => Ok (Z.of_nat (List.length l))
  | JDict d => Ok (Z.of_nat (List.length d))
  | JStr s => Ok (Z.of_nat (List.length (characters s)))
  | _ => Err TypeError
  end.

(** [x == n] for an integer [n]. *)
Definition eq_int (x : json) (n : Z) : bool :=
  match x with
  | JInt m => m =? n
  | JBool b => (if b then 1 else 0) =? n
  | _ => false
  end.

(** [x == s] for a string [s]. *)
Definition eq_str (x : json) (s : string) : bool :=
  match x with
  | JStr t => String.eqb t s
  | _ => false
  end.

(** [str(n)] for an integer. *)
Definition str_int (n : Z) : string := NilZero.string_of_int (Z.to_int n).

(** [l[:n]]. *)
Definition slice_to {A : Type} (l : list A) (n : Z) : list A :=
  if 0 <=? n then firstn (Z.to_nat n) l
  else firstn (Z.to_nat (Z.of_nat (List.length l) + n)) l.

(** [sep.join(l)]. *)
Definition join (sep : string) (l : list string) : string := String.concat sep l.

(** [x in l] for a list of strings. *)
Definition mem (x : string) (l : list string) : bool :=
  existsb (String.eqb x) l.

Definition dquote : string := String "034"%char EmptyString.
Definition newline : string := String "010"%char EmptyString.

End Py.
Import Py.

(* ================================================================= *)
(** ** urllib.parse *)

Module Urllib.

Definition between (lo hi c : ascii) : bool :=
  (nat_of_ascii lo <=? nat_of_ascii c)%nat && (nat_of_ascii c <=? nat_of_ascii hi)%nat.

(** The characters [quote] never escapes (Python 3.7 and later). *)
Definition always_safe (c : ascii) : bool :=
  between "A" "Z" c || between "a" "z" c || between "0" "9" c
  || Ascii.eqb c "_" || Ascii.eqb c "." || Ascii.eqb c "-" || Ascii.eqb c "~".

Definition hex_digit (n : nat) : ascii :=
  nth n (list_ascii_of_string "0123456789ABCDEF") "0"%char.

Definition percent (c : ascii) : string :=
  String "%" (String (hex_digit (nat_of_ascii c / 16))
             (String (hex_digit (nat_of_ascii c mod 16)) EmptyString)).

Fixpoint contains (c : ascii) (s : string) : bool :=
  match s with
  | EmptyString => false
  | String d s' => Ascii.eqb c d || contains c s'
  end.

(** [quote(s, safe)]. *)
Fixpoint quote (s : string) (safe : string) : string :=
  match s with
  | EmptyString => EmptyString
  | String c s' =>
      (if always_safe c || contains c safe then String c EmptyString else percent c)
      ++ quote s' safe
  end.

(** [s.replace(a, b)] for single characters. *)
Fixpoint replace (a b : ascii) (s : string) : string :=
  match s with
  | EmptyString => EmptyString
  | String c s' => String (if Ascii.eqb c a then b else c) (replace a b s')
  end.

(** [quote_plus(s, safe)]. *)
Definition quote_plus (s : string) (safe : string) : string :=
  if contains " " s then replace " " "+" (quote s (safe ++ " "))
  else quote s safe.




End Urllib.

(* ================================================================= *)
(** ** Coroutines and asynchronous generators *)

(** The headers [github_ratelimiter] reads, as [int(...)] parses them. *)
Record headers : Type := mkHeaders {
  x_ratelimit_remaining : Z;
  x_ratelimit_reset : Z
}.

(** What [await session.get(url, raise_for_status=True, ...)] gives: a
    [TimeoutError], another client error (a 4xx or 5xx status among them), or
    a response with its JSON body and headers. *)
Inductive response : Type :=
| TimedOut
| Failed
| Response (data : json) (hdrs : headers).

Inductive colour : Type := red | purple.

Record Embed : Type := mkEmbed {
  color : colour;
  title : string;
  description : string;
  footer : option string
}.

(** Observable actions, in the order they happen. [Report] marks a call of the
    injected [error_channel] callback. *)
Inductive event : Type :=
| Request (url : string)
| Report (title description : string)
| Send (embed : Embed)
| Sleep (microseconds : Z)
| Playing (status : string).

Inductive proc (Y R : Type) : Type :=
| Ret (r : R)
| Raise (e : exn)
| Yield (y : Y) (k : proc Y R)
| Get (url : string) (k : response -> proc Y R)
| FromTimestamp (epoch_sec : Z) (k : Z -> proc Y R)
| Now (k : Z -> proc Y R)
| Rand (n : nat) (k : nat -> proc Y R)
| Emit (e : event) (k : proc Y R)
| Spin.
Arguments Ret {Y R} r.
Arguments Raise {Y R} e.
Arguments Yield {Y R} y k.
Arguments Get {Y R} url k.
Arguments FromTimestamp {Y R} epoch_sec k.
Arguments Now {Y R} k.
Arguments Rand {Y R} n k.
Arguments Emit {Y R} e k.
Arguments Spin {Y R}.

Fixpoint bind {Y A B : Type} (m : proc Y A) (f : A -> proc Y B) : proc Y B :=
  match m with
  | Ret a => f a
  | Raise e => Raise e
  | Yield y k => Yield y (bind k f)
  | Get url k => Get url (fun r => bind (k r) f)
  | FromTimestamp s k => FromTimestamp s (fun t => bind (k t) f)
  | Now k => Now (fun t => bind (k t) f)
  | Rand n k => Rand n (fun i => bind (k i) f)
  | Emit e k => Emit e (bind k f)
  | Spin => Spin
  end.

Declare Scope proc_scope.
Delimit Scope proc_scope with proc.
Notation "x <- m ;; k" := (bind m (fun x => k))
  (at level 61, m at next level, right associativity) : proc_scope.
Notation "m ;; k" := (bind m (fun _ => k))
  (at level 61, right associativity) : proc_scope.
Local Open Scope proc_scope.

(** A Python expression that may raise, evaluated inside a coroutine. *)
Definition lift {Y A : Type} (r : result A) : proc Y A :=
  match r with
  | Ok a => Ret a
  | Err e => Raise e
  end.

(** [for y in l: yield y]. *)
Fixpoint yield_each {Y : Type} (l : list Y) : proc Y unit :=
  match l with
  | [] => Ret tt
  | y :: l' => Yield y (yield_each l')
  end.

(** [[x async for x in g]]: runs the generator to its end. *)
Fixpoint collect {A Y R : Type} (g : proc A R) (acc : list A) : proc Y (list A) :=
  match g with
  | Ret _ => Ret acc
  | Raise e => Raise e
  | Yield y k => collect k (acc ++ [y])%list
  | Get url k => Get url (fun r => collect (k r) acc)
  | FromTimestamp s k => FromTimestamp s (fun t => collect (k t) acc)
  | Now k => Now (fun t => collect (k t) acc)
  | Rand n k => Rand n (fun i => collect (k i) acc)
  | Emit e k => Emit e (collect k acc)
  | Spin => Spin
  end.

(** *** Running a coroutine against the outside world *)

(** The world answers the [t]-th interaction of a run: the reply to a
    request, the reading of the clock (microseconds since the epoch) or the
    value of [random.random()], given as a natural number that is reduced
    below the population size.  It also holds the local time zone, as the UTC
    offset (in microseconds) in force at an instant given in seconds since the
    epoch, and the instants [datetime.fromtimestamp] can convert on this
    platform. *)
Record world : Type := mkWorld {
  net : nat -> string -> response;
  clock : nat -> Z;
  random : nat -> nat;
  utcoffset : Z -> Z;
  representable : Z -> bool
}.

(** [datetime.fromtimestamp(epoch_sec)]: the naive local date and time of an
    instant.  Outside the range of the platform it raises ([OverflowError],
    [OSError] or [ValueError], depending on the platform and the value; one
    constructor stands for them). *)
Definition datetime_fromtimestamp (w : world) (epoch_sec : Z) : result Z :=
  if representable w epoch_sec
  then Ok (epoch_sec * 1000000 + utcoffset w epoch_sec)
  else Err OverflowError.

(** [datetime.now()] at the [t]-th interaction: the naive local date and time
    of the present. *)
Definition datetime_now (w : world) (t : nat) : Z :=
  clock w t + utcoffset w (clock w t / 1000000).

Inductive outcome (R : Type) : Type :=
| Returned (r : R)
| Raised (e : exn)
| Diverged.
Arguments Returned {R} r.
Arguments Raised {R} e.
Arguments Diverged {R}.

Record run (Y R : Type) : Type := mkRun {
  yields : list Y;
  log : list event;
  ticks : nat;
  result_of : outcome R
}.
Arguments mkRun {Y R} yields log ticks result_of.
Arguments yields {Y R} r.
Arguments log {Y R} r.
Arguments ticks {Y R} r.
Arguments result_of {Y R} r.

Definition yielding {Y R : Type} (y : Y) (r : run Y R) : run Y R :=
  mkRun (y :: yields r) (log r) (ticks r) (result_of r).

Definition logging {Y R : Type} (e : event) (r : run Y R) : run Y R :=
  mkRun (yields r) (e :: log r) (ticks r) (result_of r).

(** [floor(random() * n)]: below [n] when [n] is positive, [0] when [n = 0]. *)
Definition draw (w : world) (t n : nat) : nat :=
  match n with
  | O => O
  | S _ => Nat.modulo (random w t) n
  end.

(** [exec w t p] runs [p] from the [t]-th interaction on; [ticks] is the
    number of the next interaction when the run ends. *)
Fixpoint exec {Y R : Type} (w : world) (t : nat) (p : proc Y R) : run Y R :=
  match p with
  | Ret r => mkRun [] [] t (Returned r)
  | Raise e => mkRun [] [] t (Raised e)
  | Yield y k => yielding y (exec w t k)
  | Get url k => logging (Request url) (exec w (S t) (k (net w t url)))
  | FromTimestamp epoch_sec k =>
      match datetime_fromtimestamp w epoch_sec with
      | Ok local => exec w t (k local)
      | Err e => mkRun [] [] t (Raised e)
      end
  | Now k => exec w (S t) (k (datetime_now w t))
  | Rand n k => exec w (S t) (k (draw w t n))
  | Emit e k => logging e (exec w t k)
  | Spin => mkRun [] [] t Diverged
  end.

Definition is_request (e : event) : bool :=
  match e with Request _ => true | _ => false end.

Definition is_report (e : event) : bool :=
  match e with Report _ _ => true | _ => false end.


(** The number of HTTP requests in a log. *)
Definition requests (l : list event) : nat := List.length (filter is_request l).

(* ================================================================= *)
(** ** main.py *)

Section Main.

(** Python's formatting of the float [sleep_time] inside an f-string, from the
    number of microseconds it stands for. *)
Variable repr_float : Z -> string.

(** Python's formatting of a list or dict inside an f-string. *)
Variable repr_container : json -> string.

(** The three callbacks the program passes as [error_channel]:
    [default_error_handler], the closure [error_handler(channel)], and the
    default of [get_pr_details], [lambda title, desc: True], whose result
    cannot be awaited. *)
Inductive handler : Type :=
| default_error_handler
| error_handler
| lambda_True.

(** [await error_channel(title, description)]. *)
Definition await_error_channel {Y : Type} (error_channel : handler)
    (title description : string) : proc Y unit :=
  Emit (Report title description)
    match error_channel with
    | default_error_handler => Ret tt
    | error_handler => Emit (Send (mkEmbed red title description None)) (Ret tt)
    | lambda_True => Raise TypeError
    end.

(** The value [github_ratelimiter] returns is the float [sleep_time] (in
    microseconds here) or the integer 0; callers test its truth value. *)
Definition truthy (v : Z) : bool := negb (v =? 0).

Definition github_ratelimiter {Y : Type} (hdrs : headers) (error_channel : handler)
    : proc Y Z :=
  if x_ratelimit_remaining hdrs =? 1 then
    let epoch_sec := x_ratelimit_reset hdrs in
    FromTimestamp epoch_sec (fun reset =>
    Now (fun now =>
      let delay := reset - now in
      let sleep_time := delay + 1000000 in
      if sleep_time >? 61 * 1000000 then
        await_error_channel error_channel "API Request timed out"
          ("Try again after " ++ repr_float sleep_time ++ " seconds") ;;
        Ret sleep_time
      else
        Emit (Sleep sleep_time) (Ret 0)))
  else Ret 0.

Definition gh_encode (x : string) : string := Urllib.quote_plus x dquote.

Definition api_url : string := "https://api.github.com/search/issues?".

(** The [q] parameter of the search: the filter terms joined by [+]. *)
Definition query_string (repository : string) (closed pull_request : bool)
    (include_labels exclude_labels : list string) : string :=
  let closed := if closed then "closed" else "open" in
  let pull_request := if pull_request then "pr" else "issue" in
  let excluded_labels :=
    map (fun x => "-label:" ++ dquote ++ gh_encode x ++ dquote) exclude_labels in
  let included_labels :=
    map (fun x => "label:" ++ dquote ++ gh_encode x ++ dquote) include_labels in
  let issue := ["is:" ++ pull_request] in
  let repo := ["repo:" ++ repository] in
  let status := ["is:" ++ closed] in
  let query := [issue; repo; status; excluded_labels; included_labels] in
  "q=" ++ join "+" (List.concat query).

Definition query_url (repository : string) (closed pull_request : bool)
    (include_labels exclude_labels : list string) (sort : string)
    (ascending_order : bool) : string :=
  let query_string :=
    query_string repository closed pull_request include_labels exclude_labels in
  let sort_string := "sort=" ++ sort in
  let order_string := "order=" ++ (if ascending_order then "asc" else "desc") in
  api_url ++ join "&" [query_string; sort_string; order_string].

Definition search_url (query_url : string) (page : Z) : string :=
  query_url ++ "&page=" ++ str_int page ++ "&per_page=100".

(** The [while True] loop of [get_issues]; [fuel] bounds its iterations. *)
Fixpoint get_issues_loop (fuel : nat) (query_url : string) (error_channel : handler)
    (data_count page : Z) : proc json unit :=
  match fuel with
  | O => Spin
  | S fuel' =>
      Get (search_url query_url page) (fun r =>
        match r with
        | TimedOut =>
            await_error_channel error_channel "API Request timed out"
              "Please check https://www.githubstatus.com/"
        | Failed => Raise ClientError
        | Response data hdrs =>
            total_count <- lift (getitem data "total_count") ;;
            items <- lift (getitem data "items") ;;
            n <- lift (len items) ;;
            let data_count := data_count + n in
            items <- lift (getitem data "items") ;;
            items <- lift (iter items) ;;
            yield_each items ;;
            let page := page + 1 in
            throttled <- github_ratelimiter hdrs error_channel ;;
            if truthy throttled then Ret tt
            else if eq_int total_count data_count then Ret tt
            else get_issues_loop fuel' query_url error_channel data_count page
        end)
  end.

Definition get_issues (fuel : nat) (repository : string) (closed pull_request : bool)
    (include_labels exclude_labels : list string) (sort : string)
    (ascending_order : bool) (error_channel : handler) : proc json unit :=
  get_issues_loop fuel
    (query_url repository closed pull_request include_labels exclude_labels
       sort ascending_order)
    error_channel 0 1.

(** [issue["pull_request"]["url"]], which [session.get] needs to be a string. *)
Definition pull_request_url (issue : json) : result string :=
  match getitem issue "pull_request" with
  | Ok p =>
      match getitem p "url" with
      | Ok (JStr url) => Ok url
      | Ok _ => Err TypeError
      | Err e => Err e
      end
  | Err e => Err e
  end.

Fixpoint get_pr_details (issues : list json) (error_channel : handler)
    : proc json unit :=
  match issues with
  | [] => Ret tt
  | issue :: issues' =>
      url <- lift (pull_request_url issue) ;;
      Get url (fun r =>
        match r with
        | TimedOut =>
            await_error_channel error_channel "API Request timed out"
              "Please check https://www.githubstatus.com/"
        | Failed => Raise ClientError
        | Response pr_data hdrs =>
            Yield pr_data
              (throttled <- github_ratelimiter hdrs error_channel ;;
               if truthy throttled then Ret tt
               else get_pr_details issues' error_channel)
        end)
  end.

(** [pr["requested_reviewers"]], as the [for] loop iterates it. *)
Definition requested_reviewers (pr : json) : result (list json) :=
  match getitem pr "requested_reviewers" with
  | Ok x => iter x
  | Err e => Err e
  end.

(** The inner loop of [pr_with_pending_review]. *)
Fixpoint for_reviewers (pr : json) (reviewers : list json) (user : string)
    : proc json unit :=
  match reviewers with
  | [] => Ret tt
  | reviewer :: reviewers' =>
      login <- lift (getitem reviewer "login") ;;
      if eq_str login user then Yield pr (for_reviewers pr reviewers' user)
      else for_reviewers pr reviewers' user
  end.

Fixpoint pr_with_pending_review {R : Type} (pr_list : proc json R) (user : string)
    : proc json unit :=
  match pr_list with
  | Ret _ => Ret tt
  | Raise e => Raise e
  | Yield pr k =>
      reviewers <- lift (requested_reviewers pr) ;;
      for_reviewers pr reviewers user ;;
      pr_with_pending_review k user
  | Get url k => Get url (fun r => pr_with_pending_review (k r) user)
  | FromTimestamp s k => FromTimestamp s (fun t => pr_with_pending_review (k t) user)
  | Now k => Now (fun t => pr_with_pending_review (k t) user)
  | Rand n k => Rand n (fun i => pr_with_pending_review (k i) user)
  | Emit e k => Emit e (pr_with_pending_review k user)
  | Spin => Spin
  end.

Definition req_details : list string :=
  ["title"; "body"; "html_url"; "created_at"; "updated_at"].

(** [{x: issue[x] for x in keys}]. *)
Fixpoint pick (issue : json) (keys : list string) : result (list (string * json)) :=
  match keys with
  | [] => Ok []
  | x :: keys' =>
      match getitem issue x with
      | Ok v =>
          match pick issue keys' with
          | Ok d => Ok ((x, v) :: d)
          | Err e => Err e
          end
      | Err e => Err e
      end
  end.

Fixpoint beautify_issues (github_issue_list : list json) : result (list json) :=
  match github_issue_list with
  | [] => Ok []
  | issue :: l =>
      match pick issue req_details with
      | Ok d =>
          match beautify_issues l with
          | Ok l' => Ok (JDict d :: l')
          | Err e => Err e
          end
      | Err e => Err e
      end
  end.

(** [f"{x}"]. *)
Definition format (x : json) : string :=
  match x with
  | JNull => "None"
  | JBool true => "True"
  | JBool false => "False"
  | JInt n => str_int n
  | JStr s => s
  | _ => repr_container x
  end.

Fixpoint issue_data (i : Z) (issues : list json) : result (list string) :=
  match issues with
  | [] => Ok []
  | issue :: l =>
      match getitem issue "title" with
      | Ok t =>
          match getitem issue "html_url" with
          | Ok u =>
              match issue_data (i + 1) l with
              | Ok l' =>
                  Ok (("**" ++ str_int (i + 1) ++ ".** " ++ format t ++ newline
                       ++ "  " ++ format u) :: l')
              | Err e => Err e
              end
          | Err e => Err e
          end
      | Err e => Err e
      end
  end.

Definition compose_message (issues : list json) : result string :=
  match issue_data 0 issues with
  | Ok l => Ok (join newline l)
  | Err e => Err e
  end.

Definition set_playing {Y : Type} (status : string) : proc Y unit :=
  Emit (Playing status) (Ret tt).

Definition check_number_of_issues {Y : Type} (number_of_issues : Z)
    (error_channel : handler) : proc Y Z :=
  number_of_issues <-
    (if number_of_issues <? 1 then
       await_error_channel error_channel "Woah, there!"
         "I can't give you un-natural issues. I'm not a monster!!" ;;
       Ret 10
     else Ret number_of_issues) ;;
  number_of_issues <-
    (if number_of_issues >? 10 then
       await_error_channel error_channel "Woah, there!"
         "Let's curb that enthusiasm.. just a little" ;;
       Ret 10
     else Ret number_of_issues) ;;
  Ret number_of_issues.

Definition issue_nouns : list string := ["issue"; "issues"; "ISSUE"; "ISSUES"].
Definition pr_nouns : list string := ["pr"; "prs"; "PR"; "PRs"; "PRS"].

(** [noun in l] where [noun] may be [None]. *)
Definition noun_in (noun : option string) (l : list string) : bool :=
  match noun with
  | Some s => mem s l
  | None => false
  end.

Definition check_pull_request {Y : Type} (noun : option string)
    (error_channel : handler) : proc Y bool :=
  if noun_in noun issue_nouns then Ret false
  else if noun_in noun pr_nouns then Ret true
  else
    await_error_channel error_channel "" "Insufficient info, defaulting to issues.." ;;
    Ret false.

(** [ctx.message.author]: a [discord.Member] or a [discord.User]. *)
Inductive author_obj : Type :=
| Member (nick : option string) (name : string)
| User (name : string).

(** The truth value of a string or [None]. *)
Definition nonempty (s : option string) : bool :=
  match s with
  | Some (String _ _) => true
  | _ => false
  end.

Definition check_author {Y : Type} (ctx : author_obj) (noun : option string)
    (error_channel : handler) : proc Y (option string) :=
  (if noun_in noun issue_nouns then
     await_error_channel error_channel "Woah, there!"
       "Sorry, but we don't review issues here. Up for some PRs?"
   else Ret tt) ;;
  if negb (noun_in noun ["all"; "ALL"]) then
    match ctx with
    | Member nick name => Ret (Some (if nonempty nick then
                                       match nick with Some s => s | None => name end
                                     else name))
    | User name => Ret (Some name)
    end
  else Ret None.

(** [population[i]]. *)
Definition index {A : Type} (population : list A) (i : nat) : result A :=
  match nth_error population i with
  | Some x => Ok x
  | None => Err IndexError
  end.

(** [random.choices(population, k=k)]:
    [[population[floor(random() * n)] for i in repeat(None, k)]] with
    [n = len(population)]. *)
Fixpoint choices {Y A : Type} (population : list A) (k : nat) : proc Y (list A) :=
  match k with
  | O => Ret []
  | S k' =>
      x <- Rand (List.length population) (fun i => lift (index population i)) ;;
      l <- choices population k' ;;
      Ret (x :: l)
  end.

Definition choose_rand {Y : Type} (issues : list json) (number_of_issues : Z)
    : proc Y (list json * string) :=
  chosen_issues <- choices issues (Z.to_nat number_of_issues) ;;
  let title := str_int number_of_issues ++ " random picks out of "
               ++ str_int (Z.of_nat (List.length issues)) ++ ":" in
  Ret (chosen_issues, title).

(** The [async for] loop of [choose_review] with its [break]. *)
Fixpoint take_until {A Y R : Type} (issues : proc A R) (chosen_issues : list A)
    (number_of_issues : Z) : proc Y (list A) :=
  match issues with
  | Ret _ => Ret chosen_issues
  | Raise e => Raise e
  | Yield issue k =>
      let chosen_issues := (chosen_issues ++ [issue])%list in
      if Z.of_nat (List.length chosen_issues) =? number_of_issues
      then Ret chosen_issues
      else take_until k chosen_issues number_of_issues
  | Get url k => Get url (fun r => take_until (k r) chosen_issues number_of_issues)
  | FromTimestamp s k =>
      FromTimestamp s (fun t => take_until (k t) chosen_issues number_of_issues)
  | Now k => Now (fun t => take_until (k t) chosen_issues number_of_issues)
  | Rand n k => Rand n (fun i => take_until (k i) chosen_issues number_of_issues)
  | Emit e k => Emit e (take_until k chosen_issues number_of_issues)
  | Spin => Spin
  end.

Definition choose_review {Y : Type} (issues : list json) (number_of_issues : Z)
    (author : option string) : proc Y (list json * string) :=
  chosen_issues <-
    (if nonempty author then
       match author with
       | Some user =>
           take_until (pr_with_pending_review (get_pr_details issues lambda_True) user)
             [] number_of_issues
       | None => Ret []
       end
     else Ret (slice_to issues number_of_issues)) ;;
  let selection :=
    if nonempty author
    then "for @" ++ match author with Some user => user | None => "" end
    else "in review queue" in
  let title := "Oldest " ++ str_int number_of_issues ++ " PR(s) " ++ selection ++ ":" in
  Ret (chosen_issues, title).

Definition choose_feedback {Y : Type} (issues : list json) (number_of_issues : Z)
    (pull_request : bool) : proc Y (list json * string) :=
  let chosen_issues := slice_to issues number_of_issues in
  let kind := if pull_request then "PR(s)" else "issue(s)" in
  let title := "Oldest " ++ str_int number_of_issues ++ " " ++ kind
               ++ " in feedback queue:" in
  Ret (chosen_issues, title).

(** An entry of [command_config.json]: the keyword arguments of [get_issues]. *)
Record config : Type := mkConfig {
  repository : string;
  closed : bool;
  include_labels : list string;
  exclude_labels : list string;
  sort : string;
  ascending_order : bool
}.

(** The reply [command_function] assembles from a selection. *)
Definition reply_for (chosen_issues : list json) (reply_title : string)
    (number_of_issues : Z) : result Embed :=
  match beautify_issues chosen_issues with
  | Ok l =>
      match compose_message l with
      | Ok reply_description =>
          Ok (mkEmbed purple reply_title reply_description
                (if Z.of_nat (List.length chosen_issues) <? number_of_issues
                 then Some "There weren't enough..." else None))
      | Err e => Err e
      end
  | Err e => Err e
  end.

(** The locals [number_of_issues], [pull_request] and [author]; the last two
    are unbound until a command-specific check assigns them.  The checks were
    bound to the arguments of the command when [check_order] was built. *)
Definition locals : Type := (Z * option bool * option (option string))%type.

Definition command_function {Y : Type} (fuel : nat) (ctx : author_obj)
    (number_of_issues : Z) (noun : option string) (name : string) (conf : config)
    : proc Y unit :=
  let error_channel := error_handler in
  vars <-
    (if mem name ["rand"; "fq"] then
       number_of_issues <- check_number_of_issues number_of_issues error_channel ;;
       pull_request <- check_pull_request noun error_channel ;;
       Ret ((number_of_issues, Some pull_request, Some None) : locals)
     else Ret ((number_of_issues, None, None) : locals)) ;;
  vars <-
    (if mem name ["rq"] then
       number_of_issues <- check_number_of_issues number_of_issues error_channel ;;
       author <- check_author ctx noun error_channel ;;
       Ret ((number_of_issues, Some true, Some author) : locals)
     else Ret vars) ;;
  let '(number_of_issues, pull_request, author) := vars in
  set_playing "On The Cue" ;;
  match pull_request, author with
  | Some pull_request, Some author =>
      issues <-
        collect (get_issues fuel (repository conf) (closed conf) pull_request
                   (include_labels conf) (exclude_labels conf) (sort conf)
                   (ascending_order conf) error_channel) [] ;;
      chosen <-
        (if String.eqb name "rand" then choose_rand issues number_of_issues
         else if String.eqb name "rq" then choose_review issues number_of_issues author
         else choose_feedback issues number_of_issues pull_request) ;;
      reply <- lift (reply_for (fst chosen) (snd chosen) number_of_issues) ;;
      Emit (Send reply) (set_playing "The Waiting Game")
  | _, _ => Raise UnboundLocalError
  end.

End Main.

(** A callback whose call can be awaited. *)
Definition awaitable (error_channel : handler) : bool :=
  match error_channel with
  | lambda_True => false
  | _ => true
  end.

(** What a call of the callback adds to the log after its [Report]. *)
Definition callback_log (error_channel : handler) (title description : string)
    : list event :=
  match error_channel with
  | error_handler => [Send (mkEmbed red title description None)]
  | _ => []
  end.

(** The limiter's [sleep_time], in microseconds, when the clock is read at
    interaction [t]: the difference of the two wall-clock readings, plus one
    second. *)
Definition sleep_time_at (w : world) (t : nat) (hdrs : headers) : Z :=
  (x_ratelimit_reset hdrs * 1000000 + utcoffset w (x_ratelimit_reset hdrs)
   - datetime_now w t) + 1000000.

(** Whether the limiter fails: it has to convert a reset time that
    [datetime.fromtimestamp] cannot convert. *)
Definition fails (w : world) (hdrs : headers) : bool :=
  (x_ratelimit_remaining hdrs =? 1) && negb (representable w (x_ratelimit_reset hdrs)).

(** Whether the limiter, run at interaction [t], gives up. *)
Definition gives_up (w : world) (t : nat) (hdrs : headers) : bool :=
  (x_ratelimit_remaining hdrs =? 1) && representable w (x_ratelimit_reset hdrs)
  && (sleep_time_at w t hdrs >? 61 * 1000000).

(** The limiter lets its caller go on, whenever it is run: it neither fails
    nor gives up. *)
Definition passes (w : world) (hdrs : headers) : Prop :=
  fails w hdrs = false /\ forall t, gives_up w t hdrs = false.


(** A log that only holds calls of the error callback and the red embeds
    [error_handler] sends. *)
Definition error_traffic (l : list event) : Prop :=
  Forall (fun e => match e with
                   | Report _ _ => True
                   | Send embed => color embed = red
                   | _ => False
                   end) l.

(** The calls of the error callback in a log. *)
Definition reports (l : list event) : list event := filter is_report l.


(** *** The search API as [get_issues] sees it *)

(** The [page]-th page, of at most 100 items, of the result list [L]. *)
Definition page_of (L : list json) (page : Z) : list json :=
  firstn 100 (skipn (Z.to_nat (100 * (page - 1))) L).

(** The world answers the searches of [query_url] from the result list [L]:
    whenever page [page] is requested, the request either times out or is
    answered with that page of [L], the total count of [L] and headers the
    rate limiter does not fail on. *)
Definition serves (w : world) (query_url : string) (L : list json) : Prop :=
  forall (t : nat) (page : Z), 1 <= page ->
    net w t (search_url query_url page) = TimedOut \/
    exists data hdrs,
      net w t (search_url query_url page) = Response data hdrs /\
      getitem data "total_count" = Ok (JInt (Z.of_nat (List.length L))) /\
      getitem data "items" = Ok (JList (page_of L page)) /\
      fails w hdrs = false.

(** Some request for a page of the search times out. *)
Definition may_time_out (w : world) (query_url : string) : Prop :=
  exists t page, net w t (search_url query_url page) = TimedOut.

(** Some answer to a request for a page of the search makes the rate limiter
    give up at some moment. *)
Definition may_give_up (w : world) (query_url : string) : Prop :=
  exists t page data hdrs t',
    net w t (search_url query_url page) = Response data hdrs /\
    gives_up w t' hdrs = true.

(** A request timed out and was reported. *)
Definition timed_out (l : list event) : Prop :=
  In (Report "API Request timed out" "Please check https://www.githubstatus.com/") l.

(** The rate limiter gave up and reported it. *)
Definition gave_up (repr_float : Z -> string) (l : list event) : Prop :=
  exists sleep_time,
    In (Report "API Request timed out"
          ("Try again after " ++ repr_float sleep_time ++ " seconds")) l.

(** *** The review-pending filter on one item and on a list *)

(** [reviewer["login"] == user], false when the entry has no login. *)
Definition login_is (user : string) (reviewer : json) : bool :=
  match getitem reviewer "login" with
  | Ok login => eq_str login user
  | Err _ => false
  end.

(** The requested-reviewers list of [pr] contains an entry whose login is
    [user]. *)
Definition has_pending_review (user : string) (pr : json) : bool :=
  match requested_reviewers pr with
  | Ok reviewers => existsb (login_is user) reviewers
  | Err _ => false
  end.

(** The number of entries of [pr]'s requested-reviewers list whose login is
    [user]. *)
Definition count_pending (user : string) (pr : json) : nat :=
  match requested_reviewers pr with
  | Ok reviewers => List.length (filter (login_is user) reviewers)
  | Err _ => O
  end.

(** Every entry of the requested-reviewers list of [pr] is a dict with a
    [login]. *)
Definition well_formed_pr (pr : json) : Prop :=
  exists reviewers,
    requested_reviewers pr = Ok reviewers /\
    Forall (fun reviewer => exists login, getitem reviewer "login" = Ok login) reviewers.

(** The scan of a reviewer list: how many entries match before the scan ends,
    and the exception that ends it, if any. *)
Fixpoint scan_reviewers (reviewers : list json) (user : string) : nat * option exn :=
  match reviewers with
  | [] => (O, None)
  | reviewer :: reviewers' =>
      match getitem reviewer "login" with
      | Ok login =>
          let (n, e) := scan_reviewers reviewers' user in
          (if eq_str login user then S n else n, e)
      | Err e => (O, Some e)
      end
  end.

Definition pending (user : string) (pr : json) : nat * option exn :=
  match requested_reviewers pr with
  | Ok reviewers => scan_reviewers reviewers user
  | Err e => (O, Some e)
  end.

(** The items the filter lets through, from the list of the items it is fed. *)
Fixpoint kept (user : string) (prs : list json) : list json :=
  match prs with
  | [] => []
  | pr :: prs' =>
      (repeat pr (fst (pending user pr))
       ++ match snd (pending user pr) with
          | None => kept user prs'
          | Some _ => []
          end)%list
  end.

(** *** The review-queue scan *)

(** The detail request of [issue] is always answered, with body [pr]. *)
Definition answered (w : world) (issue pr : json) : Prop :=
  exists url,
    pull_request_url issue = Ok url /\
    forall t, exists hdrs, net w t url = Response pr hdrs.

(** The rate limiter never stops the enricher on an answer to the detail
    request of [issue]: it neither gives up nor fails. *)
Definition calm (w : world) (issue : json) : Prop :=
  forall url t pr hdrs,
    pull_request_url issue = Ok url ->
    net w t url = Response pr hdrs ->
    passes w hdrs.

(** The rate limiter gives up on every answer to the detail request of
    [issue]. *)
Definition stops (w : world) (issue : json) : Prop :=
  forall url t pr hdrs,
    pull_request_url issue = Ok url ->
    net w t url = Response pr hdrs ->
    forall t', gives_up w t' hdrs = true.

(** With [counts] the number of matches each input item supplies, the 1-based
    position of the item that supplies the [n]-th match ([n >= 1]), or the
    length of the input when it supplies fewer than [n]. *)
Fixpoint needed (n : nat) (counts : list nat) : nat :=
  match counts with
  | [] => O
  | c :: counts' => if (n <=? c)%nat then 1%nat else S (needed (n - c) counts')
  end.

(** The position of the [n]-th item of [prs] that has a pending review by
    [user], or the length of [prs] when fewer than [n] have one. *)
Definition position (user : string) (n : nat) (prs : list json) : nat :=
  needed n (map (fun pr => if has_pending_review user pr then 1%nat else O) prs).

(** *** The checks of [command_function] *)

(** The count [check_number_of_issues] returns. *)
Definition checked_number (number_of_issues : Z) : Z :=
  if number_of_issues <? 1 then 10
  else if number_of_issues >? 10 then 10
  else number_of_issues.

(** The flag [check_pull_request] returns. *)
Definition checked_kind (noun : option string) : bool :=
  if noun_in noun issue_nouns then false else noun_in noun pr_nouns.

(** *** The search query as the server reads it *)






(** *** What a coroutine can do *)

(** Every action [p] can perform satisfies [P], whatever the world answers. *)
Fixpoint emits {Y R : Type} (P : event -> Prop) (p : proc Y R) : Prop :=
  match p with
  | Ret _ => True
  | Raise _ => True
  | Yield _ k => emits P k
  | Get url k => P (Request url) /\ forall r, emits P (k r)
  | FromTimestamp _ k => forall t, emits P (k t)
  | Now k => forall t, emits P (k t)
  | Rand _ k => forall i, emits P (k i)
  | Emit e k => P e /\ emits P k
  | Spin => True
  end.

(** The actions of the fetching stages: requests, calls of the error callback
    about a timed out API request, the red embeds of [error_handler] for them,
    and sleeps of at most 61 seconds. *)
Definition fetch_event (e : event) : Prop :=
  match e with
  | Request _ => True
  | Report title _ => title = "API Request timed out"
  | Send embed => color embed = red /\ title embed = "API Request timed out"
  | Sleep d => d <= 61 * 1000000
  | Playing _ => False
  end.

(** The URLs requested in a log, in order. *)
Definition request_urls (l : list event) : list string :=
  flat_map (fun e => match e with Request url => [url] | _ => [] end) l.

(** The pages [page], [page + 1], ... ([k] of them) of a search. *)
Definition pages_from (query_url : string) (page : Z) (k : nat) : list string :=
  map (fun i => search_url query_url (page + Z.of_nat i)) (seq 0 k).

(** The identity [check_author] returns. *)
Definition checked_author (ctx : author_obj) (noun : option string) : option string :=
  if negb (noun_in noun ["all"; "ALL"]) then
    match ctx with
    | Member nick name => Some (if nonempty nick then
                                  match nick with Some s => s | None => name end
                                else name)
    | User name => Some name
    end
  else None.

(** [issue] is a dict that has the five keys of [req_details]. *)
Definition presentable (issue : json) : Prop :=
  forall key, In key req_details -> exists v, getitem issue key = Ok v.

(** The entry of [compose_message] for the [i]-th issue (from 0). *)
Definition entry (repr_container : json -> string) (i : Z) (t u : json) : string :=
  "**" ++ str_int (i + 1) ++ ".** " ++ format repr_container t ++ newline
  ++ "  " ++ format repr_container u.

(** Every answer of the world is a page that holds more items than the total
    count [T] it reports, with headers on which the rate limiter neither
    gives up nor fails. *)
Definition oversupplies (w : world) (T : Z) : Prop :=
  forall (t : nat) (url : string),
    exists data hdrs items,
      net w t url = Response data hdrs /\
      getitem data "total_count" = Ok (JInt T) /\
      getitem data "items" = Ok (JList items) /\
      T < Z.of_nat (List.length items) /\
      passes w hdrs.

(* ================================================================= *)
(** ** Concrete inputs *)

Module Examples.

(** A formatting of floats, exact on whole seconds. *)
Definition repr_float (us : Z) : string := str_int (us / 1000000) ++ ".0".
Definition repr_container (x : json) : string := "[...]".

(** A world in which every request times out, the clock stands at
    [1000] seconds, the random source always returns 7 and the local zone is
    UTC, as in all the worlds below but the last two. *)
Definition offline : world :=
  mkWorld (fun _ _ => TimedOut) (fun _ => 1000 * 1000000) (fun _ => 7%nat)
    (fun _ => 0) (fun _ => true).

Definition repo_url : string := "https://api.github.com/repos/PointCloudLibrary/pcl/pulls/".

(** A search result for pull request [number]. *)
Definition issue (number : Z) (issue_title : string) : json :=
  JDict [("number", JInt number); ("title", JStr issue_title); ("body", JNull);
         ("html_url", JStr ("https://github.com/PointCloudLibrary/pcl/pull/"
                            ++ str_int number));
         ("created_at", JStr "2020-05-01T00:00:00Z");
         ("updated_at", JStr "2020-05-02T00:00:00Z");
         ("pull_request", JDict [("url", JStr (repo_url ++ str_int number))])].

Definition three : list json := [issue 1 "a"; issue 2 "b"; issue 3 "c"].

Definition conf : config :=
  mkConfig "PointCloudLibrary/pcl" false [] ["needs: author reply"] "updated" true.

Definition conf_url (pull_request : bool) : string :=
  query_url (repository conf) (closed conf) pull_request (include_labels conf)
    (exclude_labels conf) (sort conf) (ascending_order conf).

Definition page (items : list json) (total : Z) : json :=
  JDict [("total_count", JInt total); ("items", JList items)].

(** Headers far from the rate limit. *)
Definition plenty : headers := mkHeaders 4999 1000.

(** A world whose search API holds the list [L] (of at most 100 items) for the
    query [url]: page 1 is [L], every other page is empty. *)
Definition github (L : list json) (url : string) : world :=
  mkWorld
    (fun _ u =>
       if String.eqb u (search_url url 1)
       then Response (page L (Z.of_nat (List.length L))) plenty
       else Response (page [] (Z.of_nat (List.length L))) plenty)
    (fun _ => 1000 * 1000000) (fun _ => 7%nat) (fun _ => 0) (fun _ => true).

(** The details of pull request [number], awaiting review from [reviewers]. *)
Definition pull (number : Z) (reviewers : list string) : json :=
  JDict [("number", JInt number); ("title", JStr "a pull request"); ("body", JNull);
         ("html_url", JStr ("https://github.com/PointCloudLibrary/pcl/pull/"
                            ++ str_int number));
         ("created_at", JStr "2020-05-01T00:00:00Z");
         ("updated_at", JStr "2020-05-02T00:00:00Z");
         ("requested_reviewers",
          JList (map (fun login => JDict [("login", JStr login)]) reviewers))].

Definition details : list json :=
  [pull 1 ["bob"]; pull 2 ["alice"; "bob"]; pull 3 ["alice"]].

(** A world that answers the detail requests of [three] with [details]; the
    answer for pull request 1 carries the headers [first]. *)
Definition review_world (first : headers) : world :=
  mkWorld
    (fun _ u =>
       if String.eqb u (repo_url ++ "1") then Response (pull 1 ["bob"]) first
       else if String.eqb u (repo_url ++ "2") then Response (pull 2 ["alice"; "bob"]) plenty
       else if String.eqb u (repo_url ++ "3") then Response (pull 3 ["alice"]) plenty
       else Failed)
    (fun _ => 1000 * 1000000) (fun _ => 7%nat) (fun _ => 0) (fun _ => true).

(** The last request before the limit, which resets an hour from now. *)
Definition exhausted : headers := mkHeaders 1 4600.

(** A pull request that lists the same reviewer twice. *)
Definition twice : json :=
  JDict [("title", JStr "twice");
         ("requested_reviewers",
          JList [JDict [("login", JStr "alice")]; JDict [("login", JStr "bob")];
                 JDict [("login", JStr "alice")]])].


(** A world whose every answer is a page of two issues out of a reported total
    of one. *)
Definition generous : world :=
  mkWorld (fun _ _ => Response (page [issue 1 "a"; issue 2 "b"] 1) plenty)
    (fun _ => 1000 * 1000000) (fun _ => 7%nat) (fun _ => 0) (fun _ => true).

(** A world whose API answers every request with an error status. *)
Definition failing : world :=
  mkWorld (fun _ _ => Failed) (fun _ => 1000 * 1000000) (fun _ => 7%nat)
    (fun _ => 0) (fun _ => true).

(** A world that answers the search for the pull requests of [conf] with
    [three] and the detail requests of [three] with [details]. *)
Definition hub : world :=
  mkWorld
    (fun t u =>
       if String.eqb u (search_url (conf_url true) 1)
       then Response (page three 3) plenty
       else net (review_world plenty) t u)
    (fun _ => 1000 * 1000000) (fun _ => 7%nat) (fun _ => 0) (fun _ => true).

(** A world that answers the detail request of pull request 1 and lets every
    other request time out. *)
Definition stalled : world :=
  mkWorld
    (fun _ u =>
       if String.eqb u (repo_url ++ "1") then Response (pull 1 ["bob"]) plenty
       else TimedOut)
    (fun _ => 1000 * 1000000) (fun _ => 7%nat) (fun _ => 0) (fun _ => true).

(** A world whose search API reports five issues for the query of [conf],
    serves three of them on page 1 and answers every other request with an
    error status. *)
Definition flaky : world :=
  mkWorld
    (fun _ u =>
       if String.eqb u (search_url (conf_url false) 1)
       then Response (page three 5) plenty
       else Failed)
    (fun _ => 1000 * 1000000) (fun _ => 7%nat) (fun _ => 0) (fun _ => true).

(** A world whose search API reports one issue for the query of [conf] and
    serves two on page 1; every other request times out. *)
Definition overfull : world :=
  mkWorld
    (fun _ u =>
       if String.eqb u (search_url (conf_url false) 1)
       then Response (page [issue 1 "a"; issue 2 "b"] 1) plenty
       else TimedOut)
    (fun _ => 1000 * 1000000) (fun _ => 7%nat) (fun _ => 0) (fun _ => true).



End Examples.

(* ================================================================= *)
(** ** Strings *)

Lemma append_cancel_l (a x y : string) : a ++ x = a ++ y -> x = y.
Proof.
  induction a as [| c a IH]; cbn; intros H; [exact H |].
  injection H as H. apply IH. exact H.
Qed.

Lemma length_append (a b : string) :
  String.length (a ++ b) = (String.length a + String.length b)%nat.
Proof. induction a as [| c a IH]; cbn; [reflexivity | rewrite IH; reflexivity]. Qed.

Lemma append_cancel_r (x y s : string) : x ++ s = y ++ s -> x = y.
Proof.
  intros H.
  assert (Hlen : String.length x = String.length y).
  { apply (f_equal String.length) in H. rewrite !length_append in H. lia. }
  revert y H Hlen. induction x as [| c x IH]; intros [| d y] H Hlen;
    try discriminate Hlen.
  - reflexivity.
  - cbn in H. injection H as -> H. f_equal. apply IH; [exact H |].
    cbn in Hlen. lia.
Qed.

Lemma to_int_nonnil (n : Z) :
  Z.to_int n <> Decimal.Pos Decimal.Nil /\ Z.to_int n <> Decimal.Neg Decimal.Nil.
Proof.
  destruct n as [| p | p]; cbn; split; try discriminate;
    intros H; injection H as H; exact (Unsigned.to_uint_nonnil p H).
Qed.

Lemma str_int_inj (a b : Z) : str_int a = str_int b -> a = b.
Proof.
  unfold str_int. intros H. apply DecimalZ.to_int_inj.
  apply (f_equal NilZero.int_of_string) in H.
  rewrite !NilZero.isi in H by apply to_int_nonnil.
  injection H as H. exact H.
Qed.

Lemma search_url_inj (query_url : string) (p q : Z) :
  search_url query_url p = search_url query_url q -> p = q.
Proof.
  unfold search_url. intros H.
  apply append_cancel_l, append_cancel_l, append_cancel_r in H.
  apply str_int_inj. exact H.
Qed.

(* ================================================================= *)
(** ** Properties of the interpreter *)

Section ExecLemmas.

Context {Y : Type}.

Lemma exec_bind {A B : Type} (w : world) (m : proc Y A) (f : A -> proc Y B) :
  forall t,
    exec w t (bind m f) =
    let r := exec w t m in
    match result_of r with
    | Returned a =>
        let r' := exec w (ticks r) (f a) in
        mkRun (yields r ++ yields r') (log r ++ log r') (ticks r') (result_of r')
    | Raised e => mkRun (yields r) (log r) (ticks r) (Raised e)
    | Diverged => mkRun (yields r) (log r) (ticks r) Diverged
    end.
Proof.
  induction m as [a | e | y k IH | url k IH | s k IH | k IH | n k IH | e k IH | ];
    intros t; cbn [bind exec].
  - cbn. destruct (exec w t (f a)); reflexivity.
  - reflexivity.
  - rewrite IH. cbn. destruct (result_of (exec w t k)); reflexivity.
  - rewrite IH. cbn. destruct (result_of (exec w (S t) (k (net w t url)))); reflexivity.
  - destruct (datetime_fromtimestamp w s) as [local | x]; [apply IH | reflexivity].
  - apply IH.
  - apply IH.
  - rewrite IH. cbn. destruct (result_of (exec w t k)); reflexivity.
  - reflexivity.
Qed.

Lemma exec_bind_ret {A B : Type} (w : world) (m : proc Y A) (f : A -> B) (t : nat) :
  exec w t (bind m (fun a => Ret (f a))) =
  mkRun (yields (exec w t m)) (log (exec w t m)) (ticks (exec w t m))
    match result_of (exec w t m) with
    | Returned a => Returned (f a)
    | Raised e => Raised e
    | Diverged => Diverged
    end.
Proof.
  rewrite exec_bind. cbv zeta.
  destruct (result_of (exec w t m)); cbn [exec yields log ticks result_of];
    rewrite ?app_nil_r; reflexivity.
Qed.

Lemma exec_yield_each (w : world) (t : nat) (l : list Y) :
  exec w t (yield_each l) = mkRun l [] t (Returned tt).
Proof.
  induction l as [| y l IH]; cbn [yield_each exec].
  - reflexivity.
  - rewrite IH. reflexivity.
Qed.

End ExecLemmas.

(* ================================================================= *)
(** ** The rate limiter *)

Section RateLimiter.

Variable repr_float : Z -> string.
Context {Y : Type}.

Lemma exec_await_error_channel (w : world) (t : nat) (error_channel : handler)
    (title description : string) :
  exec (Y:=Y) w t (await_error_channel error_channel title description) =
  mkRun [] (Report title description :: callback_log error_channel title description) t
    (if awaitable error_channel then Returned tt else Raised TypeError).
Proof. destruct error_channel; reflexivity. Qed.

Lemma github_ratelimiter_continues (w : world) (t : nat) (hdrs : headers)
    (error_channel : handler) :
  x_ratelimit_remaining hdrs <> 1 ->
  exec (Y:=Y) w t (github_ratelimiter repr_float hdrs error_channel) =
  mkRun [] [] t (Returned 0).
Proof.
  intros Hne. unfold github_ratelimiter.
  destruct (Z.eqb_spec (x_ratelimit_remaining hdrs) 1); [contradiction | reflexivity].
Qed.

Lemma github_ratelimiter_fails (w : world) (t : nat) (hdrs : headers)
    (error_channel : handler) :
  x_ratelimit_remaining hdrs = 1 ->
  representable w (x_ratelimit_reset hdrs) = false ->
  exec (Y:=Y) w t (github_ratelimiter repr_float hdrs error_channel) =
  mkRun [] [] t (Raised OverflowError).
Proof.
  intros H1 Hno. unfold github_ratelimiter.
  rewrite H1. cbn [Z.eqb Pos.eqb exec]. unfold datetime_fromtimestamp.
  rewrite Hno. reflexivity.
Qed.

Lemma github_ratelimiter_sleeps (w : world) (t : nat) (hdrs : headers)
    (error_channel : handler) :
  x_ratelimit_remaining hdrs = 1 ->
  representable w (x_ratelimit_reset hdrs) = true ->
  sleep_time_at w t hdrs <= 61 * 1000000 ->
  exec (Y:=Y) w t (github_ratelimiter repr_float hdrs error_channel) =
  mkRun [] [Sleep (sleep_time_at w t hdrs)] (S t) (Returned 0).
Proof.
  intros H1 Hrep Hle. unfold github_ratelimiter.
  rewrite H1. cbn [Z.eqb Pos.eqb exec]. unfold datetime_fromtimestamp.
  rewrite Hrep. cbn [exec]. fold (sleep_time_at w t hdrs).
  destruct (Z.gtb_spec (sleep_time_at w t hdrs) (61 * 1000000)); [lia | reflexivity].
Qed.

Lemma github_ratelimiter_gives_up (w : world) (t : nat) (hdrs : headers)
    (error_channel : handler) :
  x_ratelimit_remaining hdrs = 1 ->
  representable w (x_ratelimit_reset hdrs) = true ->
  sleep_time_at w t hdrs > 61 * 1000000 ->
  let description :=
    "Try again after " ++ repr_float (sleep_time_at w t hdrs) ++ " seconds" in
  exec (Y:=Y) w t (github_ratelimiter repr_float hdrs error_channel) =
  mkRun []
    (Report "API Request timed out" description
     :: callback_log error_channel "API Request timed out" description)
    (S t)
    (if awaitable error_channel then Returned (sleep_time_at w t hdrs)
     else Raised TypeError).
Proof.
  intros H1 Hrep Hgt. unfold github_ratelimiter.
  rewrite H1. cbn [Z.eqb Pos.eqb exec]. unfold datetime_fromtimestamp.
  rewrite Hrep. cbn [exec]. fold (sleep_time_at w t hdrs).
  destruct (Z.gtb_spec (sleep_time_at w t hdrs) (61 * 1000000)); [| lia].
  destruct error_channel; reflexivity.
Qed.

(** The limiter's answer in one equation, whatever the headers. *)
Lemma exec_github_ratelimiter (w : world) (t : nat) (hdrs : headers)
    (error_channel : handler) :
  exec (Y:=Y) w t (github_ratelimiter repr_float hdrs error_channel) =
  if fails w hdrs then mkRun [] [] t (Raised OverflowError)
  else if gives_up w t hdrs then
    let description :=
      "Try again after " ++ repr_float (sleep_time_at w t hdrs) ++ " seconds" in
    mkRun []
      (Report "API Request timed out" description
       :: callback_log error_channel "API Request timed out" description)
      (S t)
      (if awaitable error_channel then Returned (sleep_time_at w t hdrs)
       else Raised TypeError)
  else if x_ratelimit_remaining hdrs =? 1 then
    mkRun [] [Sleep (sleep_time_at w t hdrs)] (S t) (Returned 0)
  else mkRun [] [] t (Returned 0).
Proof.
  unfold fails, gives_up.
  destruct (Z.eqb_spec (x_ratelimit_remaining hdrs) 1) as [H1 | Hne]; cbn [andb].
  - destruct (representable w (x_ratelimit_reset hdrs)) eqn:Hrep; cbn [negb andb].
    + destruct (Z.gtb_spec (sleep_time_at w t hdrs) (61 * 1000000)).
      * apply github_ratelimiter_gives_up; [assumption | assumption | lia].
      * apply github_ratelimiter_sleeps; assumption.
    + apply github_ratelimiter_fails; assumption.
  - apply github_ratelimiter_continues; assumption.
Qed.

(** On headers it passes, the limiter at most sleeps. *)
Lemma exec_github_ratelimiter_passes (w : world) (t : nat) (hdrs : headers)
    (error_channel : handler) :
  passes w hdrs ->
  exec (Y:=Y) w t (github_ratelimiter repr_float hdrs error_channel) =
  if x_ratelimit_remaining hdrs =? 1 then
    mkRun [] [Sleep (sleep_time_at w t hdrs)] (S t) (Returned 0)
  else mkRun [] [] t (Returned 0).
Proof.
  intros [Hf Hg]. rewrite exec_github_ratelimiter, Hf, Hg. reflexivity.
Qed.

Lemma truthy_sleep_time (v : Z) : v > 61 * 1000000 -> truthy v = true.
Proof. intros H. unfold truthy. destruct (Z.eqb_spec v 0); [lia | reflexivity]. Qed.

Lemma gives_up_sleep_time (w : world) (t : nat) (hdrs : headers) :
  gives_up w t hdrs = true -> sleep_time_at w t hdrs > 61 * 1000000.
Proof.
  unfold gives_up. intros G. apply andb_prop in G. destruct G as [_ G]. lia.
Qed.

Lemma gives_up_not_fails (w : world) (t : nat) (hdrs : headers) :
  gives_up w t hdrs = true -> fails w hdrs = false.
Proof.
  unfold gives_up, fails. destruct (x_ratelimit_remaining hdrs =? 1); [| reflexivity].
  destruct (representable w (x_ratelimit_reset hdrs)); [reflexivity | discriminate].
Qed.



End RateLimiter.

(* ================================================================= *)
(** ** Input checks *)

Section Checks.

Context {Y : Type}.

Lemma exec_check_number_of_issues (w : world) (t : nat) (n : Z)
    (error_channel : handler) :
  exec (Y:=Y) w t (check_number_of_issues n error_channel) =
  if n <? 1 then
    exec w t (await_error_channel error_channel "Woah, there!"
                "I can't give you un-natural issues. I'm not a monster!!" ;; Ret 10)
  else if n >? 10 then
    exec w t (await_error_channel error_channel "Woah, there!"
                "Let's curb that enthusiasm.. just a little" ;; Ret 10)
  else mkRun [] [] t (Returned n).
Proof.
  unfold check_number_of_issues.
  destruct (n <? 1).
  - destruct error_channel; reflexivity.
  - cbn [bind]. destruct (n >? 10).
    + destruct error_channel; reflexivity.
    + reflexivity.
Qed.

(** C8. A count in [1,10] comes back unchanged and nothing is reported; any
    other count is reported through the error callback once and replaced by
    10; a noun that is neither an issue keyword nor a PR keyword is reported
    once and the issue default [False] is returned. *)
Theorem malformed_input_defaults (w : world) (t : nat) (error_channel : handler)
    (Haw : awaitable error_channel = true) (n : Z) (noun : option string) :
  (1 <= n <= 10 ->
     exec (Y:=Y) w t (check_number_of_issues n error_channel)
     = mkRun [] [] t (Returned n)) /\
  (n < 1 \/ 10 < n ->
     let r := exec (Y:=Y) w t (check_number_of_issues n error_channel) in
     result_of r = Returned 10 /\
     exists description, reports (log r) = [Report "Woah, there!" description]) /\
  (noun_in noun issue_nouns = false -> noun_in noun pr_nouns = false ->
     let r := exec (Y:=Y) w t (check_pull_request noun error_channel) in
     result_of r = Returned false /\
     reports (log r) = [Report "" "Insufficient info, defaulting to issues.."]).
Proof.
  split; [| split].
  - intros [Hlo Hhi]. rewrite exec_check_number_of_issues.
    destruct (Z.ltb_spec n 1); [lia |].
    destruct (Z.gtb_spec n 10); [lia | reflexivity].
  - intros Hout. cbv zeta. rewrite exec_check_number_of_issues.
    destruct (Z.ltb_spec n 1).
    + destruct error_channel; try discriminate Haw;
        (split; [reflexivity | eexists; reflexivity]).
    + destruct (Z.gtb_spec n 10); [| lia].
      destruct error_channel; try discriminate Haw;
        (split; [reflexivity | eexists; reflexivity]).
  - intros Hi Hp. cbv zeta. unfold check_pull_request. rewrite Hi, Hp.
    destruct error_channel; try discriminate Haw; split; reflexivity.
Qed.

End Checks.

(* ================================================================= *)
(** ** Selection strategies on a materialized list *)

Section Selection.

Context {Y : Type}.

Lemma draw_lt (w : world) (t n : nat) : (0 < n)%nat -> (draw w t n < n)%nat.
Proof.
  intros Hn. destruct n as [| n]; [lia |].
  unfold draw. apply Nat.mod_upper_bound. discriminate.
Qed.

Lemma index_lt {A : Type} (l : list A) (i : nat) :
  (i < List.length l)%nat -> exists x, index l i = Ok x /\ In x l.
Proof.
  intros Hi. unfold index.
  destruct (nth_error l i) as [x |] eqn:E.
  - exists x. split; [reflexivity |]. eapply nth_error_In; eassumption.
  - apply nth_error_None in E. lia.
Qed.

Lemma exec_choices {A : Type} (w : world) (population : list A) :
  population <> [] ->
  forall (k t : nat),
  exists l, exec (Y:=Y) w t (choices population k) = mkRun [] [] (t + k) (Returned l)
            /\ List.length l = k /\ Forall (fun x => In x population) l.
Proof.
  intros Hne.
  assert (Hlen : (0 < List.length population)%nat)
    by (destruct population; [contradiction | cbn; lia]).
  induction k as [| k IH]; intros t.
  - exists []. cbn. rewrite Nat.add_0_r. repeat split. constructor.
  - destruct (index_lt population (draw w t (List.length population)))
      as (x & Hx & Hin); [apply draw_lt; exact Hlen |].
    destruct (IH (S t)) as (l & Hl & Hk & Hall).
    exists (x :: l). split; [| split].
    + cbn [choices bind exec]. rewrite Hx. cbn [lift bind].
      rewrite exec_bind, Hl. cbn. f_equal. lia.
    + cbn. lia.
    + constructor; assumption.
Qed.



Lemma exec_choose_rand_empty (w : world) (t : nat) (N : Z) :
  1 <= N ->
  exec (Y:=Y) w t (choose_rand [] N) = mkRun [] [] (S t) (Raised IndexError).
Proof.
  intros HN. unfold choose_rand.
  destruct (Z.to_nat N) as [| k] eqn:E; [lia |].
  reflexivity.
Qed.

Lemma slice_to_firstn {A : Type} (l : list A) (n : Z) :
  0 <= n -> slice_to l n = firstn (Z.to_nat n) l.
Proof.
  intros Hn. unfold slice_to. destruct (Z.leb_spec 0 n); [reflexivity | lia].
Qed.

Lemma slice_to_all {A : Type} (l : list A) (n : Z) :
  Z.of_nat (List.length l) <= n -> slice_to l n = l.
Proof.
  intros Hn. rewrite slice_to_firstn by lia. apply firstn_all2. lia.
Qed.

Lemma slice_to_length {A : Type} (l : list A) (n : Z) :
  0 <= n -> Z.of_nat (List.length (slice_to l n)) = Z.min n (Z.of_nat (List.length l)).
Proof.
  intros Hn. rewrite slice_to_firstn by assumption. rewrite length_firstn. lia.
Qed.

Lemma reply_for_footer (repr_container : json -> string) (chosen : list json)
    (reply_title : string) (n : Z) (reply : Embed) :
  reply_for repr_container chosen reply_title n = Ok reply ->
  footer reply = if Z.of_nat (List.length chosen) <? n
                 then Some "There weren't enough..." else None.
Proof.
  unfold reply_for. intros H.
  destruct (beautify_issues chosen); [| discriminate].
  destruct (compose_message repr_container a); [| discriminate].
  injection H as <-. reflexivity.
Qed.

End Selection.

(* ================================================================= *)
(** ** The review-pending filter *)

Section Filter.

Variable user : string.

Lemma exec_for_reviewers (w : world) (t : nat) (pr : json) (reviewers : list json) :
  exec w t (for_reviewers pr reviewers user) =
  mkRun (repeat pr (fst (scan_reviewers reviewers user))) [] t
    (match snd (scan_reviewers reviewers user) with
     | None => Returned tt
     | Some e => Raised e
     end).
Proof.
  induction reviewers as [| reviewer rs IH]; cbn [for_reviewers scan_reviewers].
  - reflexivity.
  - destruct (getitem reviewer "login") as [login | e]; cbn [lift bind].
    + destruct (scan_reviewers rs user) as [n e] eqn:E. cbn [fst snd] in *.
      destruct (eq_str login user); cbn [exec]; rewrite IH; reflexivity.
    + reflexivity.
Qed.

(** The filter on one upstream item, followed by the rest of the stream. *)
Lemma exec_filter_item (w : world) (t : nat) (pr : json) (rest : proc json unit) :
  exec w t (reviewers <- lift (requested_reviewers pr) ;;
            for_reviewers pr reviewers user ;; rest) =
  match snd (pending user pr) with
  | None =>
      let r := exec w t rest in
      mkRun (repeat pr (fst (pending user pr)) ++ yields r) (log r) (ticks r)
        (result_of r)
  | Some e => mkRun (repeat pr (fst (pending user pr))) [] t (Raised e)
  end.
Proof.
  unfold pending.
  destruct (requested_reviewers pr) as [reviewers | e]; cbn [lift bind].
  - rewrite exec_bind, exec_for_reviewers. cbn.
    destruct (snd (scan_reviewers reviewers user)); reflexivity.
  - reflexivity.
Qed.

(** What the filter does to a run of its upstream: it lets through [kept] of
    the upstream's items and performs a prefix of the upstream's actions, all of
    them unless an item is malformed. *)
Lemma exec_pr_with_pending_review {R : Type} (w : world) (g : proc json R) :
  forall t,
    let up := exec w t g in
    let out := exec w t (pr_with_pending_review g user) in
    yields out = kept user (yields up) /\
    exists l, log up = (log out ++ l)%list.
Proof.
  induction g as [a | e | pr k IH | url k IH | s k IH | k IH | n k IH | e k IH | ];
    intros t; cbn [pr_with_pending_review].
  - split; [reflexivity | exists []; reflexivity].
  - split; [reflexivity | exists []; reflexivity].
  - cbv zeta. rewrite exec_filter_item. cbn [exec yielding yields log kept].
    destruct (IH t) as (Hy & l & Hl).
    destruct (snd (pending user pr)); cbn [yields log].
    + split; [rewrite app_nil_r; reflexivity | eexists; reflexivity].
    + split; [rewrite Hy; reflexivity | exists l; exact Hl].
  - cbn [exec logging yields log].
    destruct (IH (net w t url) (S t)) as (Hy & l & Hl).
    split; [exact Hy | exists l; cbn; rewrite Hl; reflexivity].
  - cbn [exec]. destruct (datetime_fromtimestamp w s) as [local | x];
      [apply IH | split; [reflexivity | exists []; reflexivity]].
  - cbn [exec]. apply IH.
  - cbn [exec]. apply IH.
  - cbn [exec logging yields log].
    destruct (IH t) as (Hy & l & Hl).
    split; [exact Hy | exists l; cbn; rewrite Hl; reflexivity].
  - split; [reflexivity | exists []; reflexivity].
Qed.

Lemma scan_reviewers_exists (reviewers : list json) :
  (0 < fst (scan_reviewers reviewers user))%nat ->
  existsb (login_is user) reviewers = true.
Proof.
  induction reviewers as [| reviewer rs IH]; cbn [scan_reviewers existsb].
  - cbn. lia.
  - unfold login_is at 1.
    destruct (getitem reviewer "login") as [login | e]; [| cbn; lia].
    destruct (scan_reviewers rs user) as [n e]. cbn [fst] in *.
    destruct (eq_str login user); [reflexivity |].
    intros Hn. cbn [orb]. apply IH. exact Hn.
Qed.

Lemma pending_has_pending_review (pr : json) :
  (0 < fst (pending user pr))%nat -> has_pending_review user pr = true.
Proof.
  unfold pending, has_pending_review.
  destruct (requested_reviewers pr) as [reviewers | e]; [| cbn; lia].
  apply scan_reviewers_exists.
Qed.

Lemma scan_reviewers_well_formed (reviewers : list json) :
  Forall (fun reviewer => exists login, getitem reviewer "login" = Ok login) reviewers ->
  scan_reviewers reviewers user = (List.length (filter (login_is user) reviewers), None).
Proof.
  induction 1 as [| reviewer rs (login & Hlogin) _ IH]; cbn [scan_reviewers filter].
  - reflexivity.
  - unfold login_is at 1. rewrite Hlogin, IH.
    destruct (eq_str login user); reflexivity.
Qed.

Lemma pending_well_formed (pr : json) :
  well_formed_pr pr -> pending user pr = (count_pending user pr, None).
Proof.
  intros (reviewers & Hr & Hall). unfold pending, count_pending. rewrite Hr.
  apply scan_reviewers_well_formed. exact Hall.
Qed.

Lemma kept_sound (prs : list json) :
  Forall (fun pr => has_pending_review user pr = true) (kept user prs).
Proof.
  induction prs as [| pr prs IH]; cbn [kept].
  - constructor.
  - apply Forall_app. split.
    + destruct (fst (pending user pr)) as [| n] eqn:E; [constructor |].
      apply Forall_forall. intros x Hx. apply repeat_spec in Hx. subst x.
      apply pending_has_pending_review. lia.
    + destruct (snd (pending user pr)); [constructor | exact IH].
Qed.

Lemma kept_ordered (prs : list json) :
  exists m,
    kept user prs = flat_map (fun pr => repeat pr (fst (pending user pr))) (firstn m prs).
Proof.
  induction prs as [| pr prs (m & IH)]; cbn [kept].
  - exists O. reflexivity.
  - destruct (snd (pending user pr)).
    + exists 1%nat. cbn. reflexivity.
    + exists (S m). cbn [firstn flat_map]. rewrite IH. reflexivity.
Qed.

Lemma kept_well_formed (prs : list json) :
  Forall well_formed_pr prs ->
  kept user prs = flat_map (fun pr => repeat pr (count_pending user pr)) prs.
Proof.
  induction 1 as [| pr prs Hpr _ IH]; cbn [kept flat_map].
  - reflexivity.
  - rewrite (pending_well_formed pr Hpr). cbn [fst snd]. rewrite IH. reflexivity.
Qed.

(** C4. Whatever the upstream generator does, every item the filter yields has
    an entry with login [user] in its requested-reviewers list, so an item
    without such an entry is never yielded; and the yielded sequence is the
    upstream sequence, cut after some item, with each item replaced by a number
    of copies of itself (possibly none): the relative order is the input's.
    The filter adds no action of its own. *)
Theorem pr_with_pending_review_filters {R : Type} (w : world) (t : nat)
    (pr_list : proc json R) :
  let up := exec w t pr_list in
  let out := exec w t (pr_with_pending_review pr_list user) in
  Forall (fun pr => has_pending_review user pr = true) (yields out) /\
  (forall pr, has_pending_review user pr = false -> ~ In pr (yields out)) /\
  (exists m,
     yields out
     = flat_map (fun pr => repeat pr (fst (pending user pr))) (firstn m (yields up))) /\
  (exists l, log up = (log out ++ l)%list).
Proof.
  cbv zeta. destruct (exec_pr_with_pending_review w pr_list t) as (Hy & Hl).
  rewrite Hy. split; [apply kept_sound |]. split; [| split].
  - intros pr Hno Hin.
    pose proof (kept_sound (yields (exec w t pr_list))) as Hall.
    rewrite Forall_forall in Hall. specialize (Hall pr Hin). congruence.
  - apply kept_ordered.
  - exact Hl.
Qed.

(** C9. An item is yielded once for each entry of its requested-reviewers
    list whose login is [user]: when the items the upstream generator yields
    are well formed, the filter yields each of them [count_pending] times in a
    row, so an item that lists [user] more than once appears more than once. *)
Theorem pr_with_pending_review_repeats {R : Type} (w : world) (t : nat)
    (pr_list : proc json R)
    (Hwf : Forall well_formed_pr (yields (exec w t pr_list))) :
  yields (exec w t (pr_with_pending_review pr_list user))
  = flat_map (fun pr => repeat pr (count_pending user pr)) (yields (exec w t pr_list)).
Proof.
  destruct (exec_pr_with_pending_review w pr_list t) as (Hy & _).
  rewrite Hy. apply kept_well_formed. exact Hwf.
Qed.

End Filter.

(* ================================================================= *)
(** ** The paged fetcher *)

Lemma firstn_plus {A : Type} (a b : nat) (l : list A) :
  firstn (a + b) l = (firstn a l ++ firstn b (skipn a l))%list.
Proof.
  revert l. induction a as [| a IH]; intros l; cbn.
  - reflexivity.
  - destruct l as [| x l]; cbn.
    + rewrite firstn_nil. reflexivity.
    + rewrite IH. reflexivity.
Qed.

Section PagedFetch.

Variable repr_float : Z -> string.
Variable w : world.
Variable url : string.
Variable L : list json.
Variable error_channel : handler.
Hypothesis Hserves : serves w url L.

(** The ways the limiter can answer when it does not fail: continue, or give
    up after reporting. *)
Lemma github_ratelimiter_cases (t : nat) (hdrs : headers) :
  fails w hdrs = false ->
  let r := exec (Y:=json) w t (github_ratelimiter repr_float hdrs error_channel) in
  yields r = [] /\
  (result_of r = Returned 0 \/
   gives_up w t hdrs = true /\ gave_up repr_float (log r) /\
   (result_of r = Raised TypeError /\ awaitable error_channel = false \/
    exists v, result_of r = Returned v /\ truthy v = true)).
Proof.
  intros Hf. cbv zeta. rewrite exec_github_ratelimiter, Hf.
  destruct (gives_up w t hdrs) eqn:G.
  - split; [reflexivity |]. right. split; [reflexivity |]. split.
    + exists (sleep_time_at w t hdrs). left. reflexivity.
    + cbn [result_of]. destruct (awaitable error_channel).
      * right. eexists. split; [reflexivity |].
        apply truthy_sleep_time. unfold gives_up in G.
        apply andb_prop in G. destruct G as [_ G]. lia.
      * left. split; reflexivity.
  - destruct (x_ratelimit_remaining hdrs =? 1); (split; [reflexivity | left; reflexivity]).
Qed.

Lemma page_of_next (k : nat) :
  page_of L (Z.of_nat k + 1) = firstn 100 (skipn (100 * k) L).
Proof. unfold page_of. do 2 f_equal. lia. Qed.

Lemma get_issues_loop_spec (fuel : nat) :
  forall (k t : nat),
    (100 * k <= List.length L)%nat ->
    (List.length L < 100 * (k + fuel))%nat ->
    let r := exec w t (get_issues_loop repr_float fuel url error_channel
                         (Z.of_nat (100 * k)) (Z.of_nat k + 1)) in
    (result_of r = Returned tt \/
     result_of r = Raised TypeError /\ awaitable error_channel = false) /\
    (exists j, yields r = firstn (100 * j) (skipn (100 * k) L)) /\
    (yields r = skipn (100 * k) L \/
     timed_out (log r) /\ may_time_out w url \/
     gave_up repr_float (log r) /\ may_give_up w url).
Proof.
  induction fuel as [| fuel IH]; intros k t Hk Hfuel; [lia |].
  cbv zeta. cbn [get_issues_loop exec].
  destruct (Hserves t (Z.of_nat k + 1))
    as [Hto | (data & hdrs & Hnet & Htc & Hit & Hf)]; [lia | |].
  - (* the request times out *)
    rewrite Hto, exec_await_error_channel.
    cbn [logging yields log result_of]. split; [| split].
    + destruct (awaitable error_channel); [left | right]; auto.
    + exists O. reflexivity.
    + right. left. split; [unfold timed_out; cbn; auto |].
      exists t, (Z.of_nat k + 1). exact Hto.
  - (* a page arrives *)
    rewrite Hnet, Htc, Hit. cbn [lift bind len iter].
    rewrite exec_bind, exec_yield_each. cbn [result_of yields log ticks].
    rewrite exec_bind. cbv zeta.
    destruct (github_ratelimiter_cases (S t) hdrs Hf) as (Hy & Hcases).
    set (rl := exec w (S t) (github_ratelimiter repr_float hdrs error_channel)) in *.
    rewrite page_of_next.
    set (page := firstn 100 (skipn (100 * k) L)).
    assert (Hpage : List.length page = Nat.min 100 (List.length L - 100 * k))
      by (unfold page; rewrite length_firstn, length_skipn; reflexivity).
    assert (Hmay : gives_up w (S t) hdrs = true -> may_give_up w url)
      by (intros G; exists t, (Z.of_nat k + 1), data, hdrs, (S t); auto).
    destruct Hcases as [H0 | (G & Hgave & [(Hraise & Haw) | (v & Hv & Htruthy)])].
    + (* the limiter lets the loop continue *)
      rewrite H0. cbn [truthy Z.eqb negb eq_int].
      destruct (Z.eqb_spec (Z.of_nat (List.length L))
                  (Z.of_nat (100 * k) + Z.of_nat (List.length page))) as [Heq | Hne].
      * (* all data has been received *)
        cbn [exec logging yields log result_of ticks]. rewrite Hy.
        cbn [app]. rewrite !app_nil_r. split; [left; reflexivity |]. split.
        -- exists 1%nat. reflexivity.
        -- left. unfold page. apply firstn_all2. rewrite length_skipn. lia.
      * (* another page is needed *)
        assert (Hfull : List.length page = 100%nat) by lia.
        replace (Z.of_nat (100 * k) + Z.of_nat (List.length page))
          with (Z.of_nat (100 * S k)) by lia.
        replace (Z.of_nat k + 1 + 1) with (Z.of_nat (S k) + 1) by lia.
        destruct (IH (S k) (ticks rl)) as (Hres & (j & Hj) & Hend); [lia | lia |].
        cbn [logging yields log result_of ticks]. rewrite Hy. cbn [app].
        split; [exact Hres |]. split.
        -- exists (S j). rewrite Hj.
           replace (100 * S j)%nat with (100 + 100 * j)%nat by lia.
           rewrite firstn_plus, skipn_skipn.
           replace (100 * S k)%nat with (100 + 100 * k)%nat by lia. reflexivity.
        -- destruct Hend as [Hall | [[Hto Hwto] | [Hgu Hwgu]]].
           ++ left. rewrite Hall.
              replace (100 * S k)%nat with (100 + 100 * k)%nat by lia.
              rewrite <- skipn_skipn. apply firstn_skipn.
           ++ right. left. split; [| exact Hwto]. unfold timed_out in *. cbn [app].
              right. apply in_or_app. right. exact Hto.
           ++ right. right. split; [| exact Hwgu].
              destruct Hgu as (st & Hst). exists st. cbn [app].
              right. apply in_or_app. right. exact Hst.
    + (* the limiter gives up and the callback cannot be awaited *)
      rewrite Hraise. cbn [logging yields log result_of ticks]. rewrite Hy, app_nil_r.
      split; [right; split; [reflexivity | exact Haw] |]. split.
      * exists 1%nat. reflexivity.
      * right. right. split; [| exact (Hmay G)].
        destruct Hgave as (st & Hst). exists st. right. exact Hst.
    + (* the limiter gives up *)
      rewrite Hv, Htruthy.
      cbn [exec logging yields log result_of ticks]. rewrite Hy. cbn [app].
      rewrite !app_nil_r. split; [left; reflexivity |]. split.
      * exists 1%nat. reflexivity.
      * right. right. split; [| exact (Hmay G)].
        destruct Hgave as (st & Hst). exists st. right. exact Hst.
Qed.

End PagedFetch.

Lemma exec_collect {A Y R : Type} (w : world) (g : proc A R) :
  forall (t : nat) (acc : list A),
    let r := exec w t g in
    exec (Y:=Y) w t (collect g acc) =
    mkRun [] (log r) (ticks r)
      match result_of r with
      | Returned _ => Returned (acc ++ yields r)%list
      | Raised e => Raised e
      | Diverged => Diverged
      end.
Proof.
  induction g as [a | e | y k IH | u k IH | s k IH | k IH | n k IH | e k IH | ];
    intros t acc; cbn [collect exec]; cbv zeta.
  - rewrite app_nil_r. reflexivity.
  - reflexivity.
  - rewrite IH. cbn [yielding yields log ticks result_of].
    rewrite <- app_assoc. reflexivity.
  - rewrite IH. reflexivity.
  - destruct (datetime_fromtimestamp w s) as [local | x]; [apply IH | reflexivity].
  - apply IH.
  - apply IH.
  - rewrite IH. reflexivity.
  - reflexivity.
Qed.

Section GetIssues.

Variable repr_float : Z -> string.

(** C1, as the code has it.  When the search API serves the result list [L]
    of a query (each page request is answered with that page,
    [total_count = len(L)] and headers the limiter does not fail on, or times
    out), [get_issues] ends after at most [len(L)/100 + 1] requests, and what
    it has yielded is a prefix of [L] made of whole pages: never more than
    [total_count] items.  It is all of [L] unless a request timed out or the
    rate limiter gave up, which is then reported, and then the items yielded
    before stay yielded and the generator just ends; so it is all of [L]
    whenever no request times out and no answer makes the limiter give up. *)
Theorem get_issues_yields_total_count (w : world) (t fuel : nat) (L : list json)
    (repository : string) (closed pull_request : bool)
    (include_labels exclude_labels : list string) (sort : string)
    (ascending_order : bool) (error_channel : handler)
    (Hserves : serves w (query_url repository closed pull_request include_labels
                           exclude_labels sort ascending_order) L)
    (Hfuel : (List.length L < 100 * fuel)%nat) :
  let url := query_url repository closed pull_request include_labels exclude_labels
               sort ascending_order in
  let r := exec w t (get_issues repr_float fuel repository closed pull_request
                       include_labels exclude_labels sort ascending_order
                       error_channel) in
  result_of r <> Diverged /\
  (awaitable error_channel = true -> result_of r = Returned tt) /\
  (exists pages, yields r = firstn (100 * pages) L) /\
  (List.length (yields r) <= List.length L)%nat /\
  (yields r = L \/
   timed_out (log r) /\ may_time_out w url \/
   gave_up repr_float (log r) /\ may_give_up w url) /\
  (~ may_time_out w url -> ~ may_give_up w url -> yields r = L).
Proof.
  cbv zeta. unfold get_issues.
  pose proof (get_issues_loop_spec repr_float w _ L error_channel Hserves fuel 0 t)
    as H.
  cbv zeta in H. rewrite Nat.mul_0_r in H. cbn [Z.of_nat Z.add skipn] in H.
  destruct H as (Hres & (j & Hj) & Hend); [lia | lia |].
  split; [| split; [| split; [| split; [| split]]]].
  - destruct Hres as [-> | [-> _]]; discriminate.
  - intros Haw. destruct Hres as [Hres | [_ Hno]]; [exact Hres | congruence].
  - exists j. exact Hj.
  - rewrite Hj. rewrite length_firstn. lia.
  - exact Hend.
  - intros Hnt Hng. destruct Hend as [Hall | [[_ Hto] | [_ Hgu]]];
      [exact Hall | contradiction | contradiction].
Qed.

End GetIssues.

(* ================================================================= *)
(** ** The review-queue scan *)

Lemma requests_app (l l' : list event) :
  requests (l ++ l') = (requests l + requests l')%nat.
Proof. unfold requests. rewrite filter_app, length_app. reflexivity. Qed.

Lemma requests_cons (e : event) (l : list event) :
  requests (e :: l) = ((if is_request e then 1 else 0) + requests l)%nat.
Proof. unfold requests. cbn [filter]. destruct (is_request e); reflexivity. Qed.

Section ReviewScan.

Variable repr_float : Z -> string.
Variable w : world.
Variable user : string.

(** The consumer's loop over the matches of one item. *)
Lemma take_until_for_reviewers {Y : Type} (pr : json) (rest : proc json unit)
    (N : Z) (reviewers : list json) :
  Forall (fun reviewer => exists login, getitem reviewer "login" = Ok login) reviewers ->
  forall chosen : list json,
    Z.of_nat (List.length chosen) < N ->
    take_until (Y:=Y) (for_reviewers pr reviewers user ;; rest) chosen N =
    let c := List.length (filter (login_is user) reviewers) in
    if N - Z.of_nat (List.length chosen) <=? Z.of_nat c
    then Ret (chosen ++ repeat pr (Z.to_nat (N - Z.of_nat (List.length chosen))))%list
    else take_until rest (chosen ++ repeat pr c)%list N.
Proof.
  induction 1 as [| reviewer rs (login & Hlogin) _ IH]; intros chosen Hlt; cbv zeta.
  - cbn [for_reviewers bind filter List.length repeat].
    destruct (Z.leb_spec (N - Z.of_nat (List.length chosen)) (Z.of_nat 0)); [lia |].
    rewrite app_nil_r. reflexivity.
  - assert (Hli : login_is user reviewer = eq_str login user)
      by (unfold login_is; rewrite Hlogin; reflexivity).
    cbn [for_reviewers filter]. rewrite Hli, Hlogin.
    cbn [lift bind]. destruct (eq_str login user).
    + cbn [bind take_until List.length].
      rewrite length_app. cbn [List.length].
      destruct (Z.eqb_spec (Z.of_nat (List.length chosen + 1)) N) as [Heq | Hne].
      * destruct (Z.leb_spec (N - Z.of_nat (List.length chosen))
                    (Z.of_nat (S (List.length (filter (login_is user) rs))))); [| lia].
        replace (Z.to_nat (N - Z.of_nat (List.length chosen))) with 1%nat by lia.
        reflexivity.
      * rewrite IH by (rewrite length_app; cbn [List.length]; lia).
        cbv zeta. rewrite length_app. cbn [List.length].
        destruct (Z.leb_spec (N - Z.of_nat (List.length chosen + 1))
                    (Z.of_nat (List.length (filter (login_is user) rs))));
          destruct (Z.leb_spec (N - Z.of_nat (List.length chosen))
                      (Z.of_nat (S (List.length (filter (login_is user) rs)))));
          try lia.
        -- replace (Z.to_nat (N - Z.of_nat (List.length chosen)))
             with (S (Z.to_nat (N - Z.of_nat (List.length chosen + 1)))) by lia.
           cbn [repeat]. rewrite <- app_assoc. reflexivity.
        -- cbn [repeat]. rewrite <- app_assoc. reflexivity.
    + apply IH. exact Hlt.
Qed.

(** The consumer's loop over the matches of one item, whatever the entries
    of its reviewer list: the loop goes on to the rest of the stream with all
    the matches of the item, or it ends at this item (the [N]-th match was
    found, or an entry has no login). *)
Lemma take_until_for_reviewers_any {Y : Type} (pr : json) (rest : proc json unit)
    (N : Z) (reviewers : list json) :
  forall chosen : list json,
    Z.of_nat (List.length chosen) < N ->
    let c := List.length (filter (login_is user) reviewers) in
    (Z.of_nat (List.length chosen) + Z.of_nat c < N /\
     take_until (Y:=Y) (for_reviewers pr reviewers user ;; rest) chosen N
     = take_until rest (chosen ++ repeat pr c)%list N) \/
    (exists res, take_until (Y:=Y) (for_reviewers pr reviewers user ;; rest) chosen N
                 = Ret res) \/
    (exists e, take_until (Y:=Y) (for_reviewers pr reviewers user ;; rest) chosen N
               = Raise e).
Proof.
  induction reviewers as [| reviewer rs IH]; intros chosen Hlt; cbv zeta.
  - left. cbn [for_reviewers bind filter List.length repeat].
    rewrite app_nil_r. split; [lia | reflexivity].
  - cbn [for_reviewers filter]. unfold login_is at 1 4.
    destruct (getitem reviewer "login") as [login | e]; cbn [lift bind].
    + destruct (eq_str login user).
      * cbn [bind take_until List.length].
        destruct (Z.eqb_spec (Z.of_nat (List.length (chosen ++ [pr]))) N) as [Heq | Hne].
        -- right. left. eexists. reflexivity.
        -- assert (Hlt' : Z.of_nat (List.length (chosen ++ [pr])) < N)
             by (rewrite length_app in *; cbn [List.length] in *; lia).
           destruct (IH (chosen ++ [pr])%list Hlt') as [[Hc He] | Hstop].
           ++ left. rewrite length_app in Hc. cbn [List.length] in Hc.
              split; [lia |]. rewrite He, <- app_assoc. reflexivity.
           ++ right. exact Hstop.
      * apply IH. exact Hlt.
    + right. right. eexists. reflexivity.
Qed.

(** The scan resumes the enricher after an item: the limiter runs first. *)
Lemma exec_scan_limiter {Y : Type} (t : nat) (hdrs : headers)
    (f : Z -> proc json unit) (chosen : list json) (N : Z) :
  exec (Y:=Y) w t
    (take_until
       (pr_with_pending_review
          (throttled <- github_ratelimiter repr_float hdrs lambda_True ;; f throttled) user)
       chosen N) =
  if fails w hdrs then mkRun [] [] t (Raised OverflowError)
  else if gives_up w t hdrs then
    mkRun []
      [Report "API Request timed out"
         ("Try again after " ++ repr_float (sleep_time_at w t hdrs) ++ " seconds")]
      (S t) (Raised TypeError)
  else if x_ratelimit_remaining hdrs =? 1 then
    logging (Sleep (sleep_time_at w t hdrs))
      (exec w (S t) (take_until (pr_with_pending_review (f 0) user) chosen N))
  else exec w t (take_until (pr_with_pending_review (f 0) user) chosen N).
Proof.
  unfold github_ratelimiter, fails, gives_up.
  destruct (x_ratelimit_remaining hdrs =? 1); cbn [andb].
  - cbn [bind pr_with_pending_review take_until exec]. unfold datetime_fromtimestamp.
    destruct (representable w (x_ratelimit_reset hdrs)); cbn [negb andb].
    + cbn [exec]. fold (sleep_time_at w t hdrs).
      destruct (sleep_time_at w t hdrs >? 61 * 1000000); reflexivity.
    + reflexivity.
  - reflexivity.
Qed.

(** The same when the limiter lets the enricher go on. *)
Lemma exec_scan_limiter_passes {Y : Type} (t : nat) (hdrs : headers)
    (f : Z -> proc json unit) (chosen : list json) (N : Z) :
  passes w hdrs ->
  exists t' l,
    requests l = O /\ reports l = [] /\
    exec (Y:=Y) w t
      (take_until
         (pr_with_pending_review
            (throttled <- github_ratelimiter repr_float hdrs lambda_True ;; f throttled)
            user)
         chosen N) =
    let r := exec (Y:=Y) w t' (take_until (pr_with_pending_review (f 0) user) chosen N) in
    mkRun (yields r) (l ++ log r) (ticks r) (result_of r).
Proof.
  intros [Hf Hg]. rewrite exec_scan_limiter, Hf, Hg.
  destruct (x_ratelimit_remaining hdrs =? 1).
  - exists (S t), [Sleep (sleep_time_at w t hdrs)].
    split; [reflexivity |]. split; reflexivity.
  - exists t, []. split; [reflexivity |]. split; [reflexivity |].
    destruct (exec w t (take_until (pr_with_pending_review (f 0) user) chosen N));
      reflexivity.
Qed.

Lemma requests_logging_request {Y R : Type} (u : string) (r : run Y R) :
  requests (log (logging (Request u) r)) = S (requests (log r)).
Proof. reflexivity. Qed.

Lemma firstn_repeat_app {A : Type} (x : A) (n c : nat) (l : list A) :
  (n <= c)%nat -> firstn n (repeat x c ++ l) = repeat x n.
Proof.
  revert c. induction n as [| n IH]; intros c Hle; [reflexivity |].
  destruct c as [| c]; [lia |]. cbn. rewrite IH by lia. reflexivity.
Qed.

Lemma firstn_repeat_more {A : Type} (x : A) (n c : nat) (l : list A) :
  (c <= n)%nat -> firstn n (repeat x c ++ l) = (repeat x c ++ firstn (n - c) l)%list.
Proof.
  intros Hle. rewrite firstn_app, repeat_length, firstn_all2
    by (rewrite repeat_length; exact Hle).
  reflexivity.
Qed.

Lemma needed_positive (n c : nat) (counts : list nat) :
  (1 <= needed n (c :: counts))%nat.
Proof. cbn [needed]. destruct (n <=? c)%nat; lia. Qed.

(** The scan over a list of issues whose detail requests are all answered
    never asks for more details than the item that supplies the [N]-th match
    requires, whatever the answers hold. *)
Lemma scan_bound (issues prs : list json) :
  Forall2 (answered w) issues prs ->
  forall (chosen : list json) (N : Z) (t : nat),
    Z.of_nat (List.length chosen) < N ->
    let r := exec (Y:=unit) w t
               (take_until
                  (pr_with_pending_review
                     (get_pr_details repr_float issues lambda_True) user)
                  chosen N) in
    let n := Z.to_nat (N - Z.of_nat (List.length chosen)) in
    (requests (log r) <= needed n (map (count_pending user) prs))%nat.
Proof.
  induction 1 as [| issue pr issues prs (url & Hurl & Hnet) _ IH];
    intros chosen N t Hlt; cbv zeta.
  - cbn. lia.
  - destruct (Hnet t) as (hdrs & Hresp).
    cbn [get_pr_details]. rewrite Hurl.
    cbn [lift bind pr_with_pending_review take_until exec].
    rewrite Hresp. cbn [pr_with_pending_review]. rewrite requests_logging_request.
    cbn [map].
    pose proof (needed_positive (Z.to_nat (N - Z.of_nat (List.length chosen)))
                  (count_pending user pr) (map (count_pending user) prs)) as Hone.
    remember (needed (Z.to_nat (N - Z.of_nat (List.length chosen)))
                (count_pending user pr :: map (count_pending user) prs)) as m eqn:Em.
    destruct (requested_reviewers pr) as [reviewers | e] eqn:Hrev; cbn [lift bind];
      [| cbn; lia].
    match goal with
    | |- context [take_until (bind (for_reviewers pr reviewers user) (fun _ => ?rest))
                    chosen N] =>
        destruct (take_until_for_reviewers_any (Y:=unit) pr rest N reviewers chosen Hlt)
          as [[Hc He] | [(res & He) | (e & He)]]
    end; rewrite He; [| cbn; lia | cbn; lia].
    subst m. clear Hone. unfold count_pending at 1. rewrite Hrev.
    rewrite exec_scan_limiter.
    change (if truthy 0 then Ret tt else get_pr_details repr_float issues lambda_True)
      with (get_pr_details repr_float issues lambda_True).
    remember (List.length (filter (login_is user) reviewers)) as c eqn:Ec.
    assert (Hlt' : Z.of_nat (List.length (chosen ++ repeat pr c)) < N)
      by (rewrite length_app, repeat_length; lia).
    assert (Hn' : Z.to_nat (N - Z.of_nat (List.length (chosen ++ repeat pr c)))
                  = (Z.to_nat (N - Z.of_nat (List.length chosen)) - c)%nat)
      by (rewrite length_app, repeat_length; lia).
    cbn [needed].
    destruct (Nat.leb_spec (Z.to_nat (N - Z.of_nat (List.length chosen))) c)
      as [Hn | _]; [lia |].
    destruct (fails w hdrs); [cbn; lia |].
    destruct (gives_up w (S t) hdrs); [cbn; lia |].
    destruct (x_ratelimit_remaining hdrs =? 1).
    + pose proof (IH (chosen ++ repeat pr c)%list N (S (S t)) Hlt') as Hb.
      cbv zeta in Hb. rewrite Hn' in Hb. unfold requests in *.
      cbn [logging log filter is_request]. lia.
    + pose proof (IH (chosen ++ repeat pr c)%list N (S t) Hlt') as Hb.
      cbv zeta in Hb. rewrite Hn' in Hb. lia.
Qed.

(** The scan over a list of issues whose detail requests are all answered
    with well-formed pull requests, the limiter letting the enricher go on
    after each. *)
Lemma scan_spec (issues prs : list json) :
  Forall2 (answered w) issues prs ->
  Forall well_formed_pr prs ->
  Forall (calm w) issues ->
  forall (chosen : list json) (N : Z) (t : nat),
    Z.of_nat (List.length chosen) < N ->
    let r := exec (Y:=unit) w t
               (take_until
                  (pr_with_pending_review
                     (get_pr_details repr_float issues lambda_True) user)
                  chosen N) in
    let n := Z.to_nat (N - Z.of_nat (List.length chosen)) in
    requests (log r) = needed n (map (count_pending user) prs) /\
    reports (log r) = [] /\
    result_of r =
      Returned (chosen ++ firstn n (flat_map (fun pr => repeat pr (count_pending user pr))
                                      prs))%list.
Proof.
  induction 1 as [| issue pr issues prs (url & Hurl & Hnet) _ IH];
    intros Hwf Hcalm chosen N t Hlt; cbv zeta.
  - cbn. rewrite firstn_nil, app_nil_r. auto.
  - apply Forall_cons_iff in Hwf. destruct Hwf as [Hpr Hwf'].
    apply Forall_cons_iff in Hcalm. destruct Hcalm as [Hcalm1 Hcalm'].
    destruct Hpr as (reviewers & Hrev & Hlogins).
    destruct (Hnet t) as (hdrs & Hresp).
    cbn [get_pr_details]. rewrite Hurl.
    cbn [lift bind pr_with_pending_review take_until exec].
    rewrite Hresp. cbn [pr_with_pending_review]. rewrite Hrev. cbn [lift bind].
    rewrite (take_until_for_reviewers pr _ N reviewers Hlogins chosen Hlt). cbv zeta.
    assert (Hc : count_pending user pr = List.length (filter (login_is user) reviewers))
      by (unfold count_pending; rewrite Hrev; reflexivity).
    rewrite <- Hc. clear Hc. remember (count_pending user pr) as c eqn:Ec.
    remember (Z.to_nat (N - Z.of_nat (List.length chosen))) as n eqn:En.
    cbn [map needed flat_map]. rewrite <- Ec.
    destruct (Z.leb_spec (N - Z.of_nat (List.length chosen)) (Z.of_nat c)) as [Hle | Hgt].
    + (* the N-th match is supplied by this item *)
      destruct (Nat.leb_spec n c) as [_ | Hn]; [| lia].
      cbn. split; [reflexivity |]. split; [reflexivity |].
      rewrite firstn_repeat_app by lia. reflexivity.
    + (* more matches are needed: the enricher is resumed *)
      destruct (Nat.leb_spec n c) as [Hn | _]; [lia |].
      assert (Hlt' : Z.of_nat (List.length (chosen ++ repeat pr c)) < N)
        by (rewrite length_app, repeat_length; lia).
      assert (Hn' : Z.to_nat (N - Z.of_nat (List.length (chosen ++ repeat pr c)))
                    = (n - c)%nat)
        by (rewrite length_app, repeat_length; lia).
      destruct (exec_scan_limiter_passes (Y:=unit) (S t) hdrs
                  (fun throttled => if truthy throttled then Ret tt
                                    else get_pr_details repr_float issues lambda_True)
                  (chosen ++ repeat pr c)%list N (Hcalm1 url t pr hdrs Hurl Hresp))
        as (t' & l & Hl0 & Hlr & El).
      rewrite El. clear El. cbv zeta.
      change (if truthy 0 then Ret tt else get_pr_details repr_float issues lambda_True)
        with (get_pr_details repr_float issues lambda_True).
      destruct (IH Hwf' Hcalm' (chosen ++ repeat pr c)%list N t' Hlt')
        as (Hreq & Hrep & Hres).
      rewrite Hn' in Hreq, Hres.
      cbn [logging log result_of]. rewrite requests_cons, requests_app, Hl0, Hreq.
      unfold reports in *. cbn [filter is_report]. rewrite filter_app, Hlr, Hrep.
      split; [reflexivity |]. split; [reflexivity |].
      rewrite Hres, firstn_repeat_more by lia. rewrite app_assoc. reflexivity.
Qed.

Lemma list_sum_snoc (l : list nat) (c : nat) :
  list_sum (l ++ [c]) = (list_sum l + c)%nat.
Proof. rewrite list_sum_app. cbn. lia. Qed.

(** The position of the [n]-th match lies beyond a run of items that supply
    fewer than [n] matches. *)
Lemma needed_beyond (counts more : list nat) :
  forall n : nat,
    (list_sum counts < n)%nat -> more <> [] ->
    (List.length counts < needed n (counts ++ more))%nat.
Proof.
  induction counts as [| c counts IH]; intros n Hlt Hmore.
  - destruct more as [| c more]; [contradiction |].
    pose proof (needed_positive n c more). cbn [app List.length]. lia.
  - cbn [list_sum fold_right] in Hlt. fold (list_sum counts) in Hlt.
    cbn [app needed List.length].
    destruct (Nat.leb_spec n c); [lia |].
    assert (Hlt' : (list_sum counts < n - c)%nat) by lia.
    specialize (IH (n - c)%nat Hlt' Hmore). lia.
Qed.

(** The scan over the first items of a list, when they are answered with
    well-formed pull requests that supply fewer than [N] matches and the
    limiter lets the enricher go on after each: one request per item, no
    report, and the scan goes on with the rest. *)
Lemma scan_prefix (pre prs : list json) :
  Forall2 (answered w) pre prs ->
  Forall well_formed_pr prs ->
  Forall (calm w) pre ->
  forall (rest chosen : list json) (N : Z) (t : nat),
    Z.of_nat (List.length chosen)
    + Z.of_nat (list_sum (map (count_pending user) prs)) < N ->
    exists t' l chosen',
      requests l = List.length pre /\ reports l = [] /\
      List.length chosen'
      = (List.length chosen + list_sum (map (count_pending user) prs))%nat /\
      exec (Y:=unit) w t
        (take_until
           (pr_with_pending_review
              (get_pr_details repr_float (pre ++ rest) lambda_True) user)
           chosen N) =
      let r := exec (Y:=unit) w t'
                 (take_until
                    (pr_with_pending_review
                       (get_pr_details repr_float rest lambda_True) user)
                    chosen' N) in
      mkRun (yields r) (l ++ log r) (ticks r) (result_of r).
Proof.
  induction 1 as [| issue pr issues prs (url & Hurl & Hnet) _ IH];
    intros Hwf Hcalm rest chosen N t Hlt.
  - exists t, [], chosen. split; [reflexivity |]. split; [reflexivity |].
    split; [cbn; lia |]. cbn [app].
    destruct (exec w t _); reflexivity.
  - apply Forall_cons_iff in Hwf. destruct Hwf as [Hpr Hwf'].
    apply Forall_cons_iff in Hcalm. destruct Hcalm as [Hcalm1 Hcalm'].
    destruct Hpr as (reviewers & Hrev & Hlogins).
    destruct (Hnet t) as (hdrs & Hresp).
    cbn [map list_sum fold_right] in Hlt.
    fold (list_sum (map (count_pending user) prs)) in Hlt.
    assert (Hlt0 : Z.of_nat (List.length chosen) < N) by lia.
    cbn [app get_pr_details]. rewrite Hurl.
    cbn [lift bind pr_with_pending_review take_until exec].
    rewrite Hresp. cbn [pr_with_pending_review]. rewrite Hrev. cbn [lift bind].
    rewrite (take_until_for_reviewers pr _ N reviewers Hlogins chosen Hlt0). cbv zeta.
    assert (Hc : count_pending user pr = List.length (filter (login_is user) reviewers))
      by (unfold count_pending; rewrite Hrev; reflexivity).
    rewrite <- Hc. remember (count_pending user pr) as c eqn:Ec.
    destruct (Z.leb_spec (N - Z.of_nat (List.length chosen)) (Z.of_nat c)); [lia |].
    destruct (exec_scan_limiter_passes (Y:=unit) (S t) hdrs
                (fun throttled => if truthy throttled then Ret tt
                                  else get_pr_details repr_float (issues ++ rest)
                                         lambda_True)
                (chosen ++ repeat pr c)%list N (Hcalm1 url t pr hdrs Hurl Hresp))
      as (t0 & l0 & Hreq0 & Hrep0 & E0).
    rewrite E0. clear E0. cbv zeta.
    change (if truthy 0 then Ret tt
            else get_pr_details repr_float (issues ++ rest) lambda_True)
      with (get_pr_details repr_float (issues ++ rest) lambda_True).
    destruct (IH Hwf' Hcalm' rest (chosen ++ repeat pr c)%list N t0)
      as (t' & l & chosen' & Hreq & Hrep & Hlen & E).
    { rewrite length_app, repeat_length. lia. }
    rewrite E. clear E. cbv zeta.
    exists t', (Request url :: l0 ++ l)%list, chosen'.
    split.
    { rewrite requests_cons, requests_app, Hreq0, Hreq. reflexivity. }
    split.
    { unfold reports in *. cbn [filter is_report]. rewrite filter_app, Hrep0, Hrep.
      reflexivity. }
    split.
    { rewrite Hlen, length_app, repeat_length. cbn [map list_sum fold_right].
      fold (list_sum (map (count_pending user) prs)). rewrite <- Ec. lia. }
    cbn [logging yields log ticks result_of app]. rewrite <- app_assoc. reflexivity.
Qed.

(** A give-up ends the scan: when the items of [pre] and the item [last] are
    answered with well-formed pull requests that supply fewer than [N] matches
    together, the limiter lets the enricher go on after each item of [pre] and
    gives up on the answer to [last], the scan ends there, one request per
    item having been made and the give-up reported. *)
Lemma scan_gives_up (pre prs : list json) (last pr : json) (rest : list json)
    (N : Z) (t : nat) :
  Forall2 (answered w) pre prs ->
  Forall well_formed_pr prs ->
  Forall (calm w) pre ->
  answered w last pr -> well_formed_pr pr -> stops w last ->
  Z.of_nat (list_sum (map (count_pending user) (prs ++ [pr]))) < N ->
  let r := exec (Y:=unit) w t
             (take_until
                (pr_with_pending_review
                   (get_pr_details repr_float (pre ++ last :: rest) lambda_True) user)
                [] N) in
  requests (log r) = S (List.length pre) /\
  List.length (reports (log r)) = 1%nat /\
  result_of r = Raised TypeError.
Proof.
  intros Hans Hwf Hcalm (url & Hurl & Hnet) (reviewers & Hrev & Hlogins) Hstops Hlt.
  rewrite map_app in Hlt. cbn [map] in Hlt. rewrite list_sum_snoc in Hlt.
  cbv zeta.
  destruct (scan_prefix pre prs Hans Hwf Hcalm (last :: rest) [] N t)
    as (t' & l & chosen' & Hreq & Hrep & Hlen & E).
  { cbn [List.length]. lia. }
  rewrite E. clear E. cbv zeta. cbn [List.length Nat.add] in Hlen.
  destruct (Hnet t') as (hdrs & Hresp).
  assert (Hlt' : Z.of_nat (List.length chosen') < N) by lia.
  cbn [get_pr_details]. rewrite Hurl.
  cbn [lift bind pr_with_pending_review take_until exec].
  rewrite Hresp. cbn [pr_with_pending_review]. rewrite Hrev. cbn [lift bind].
  rewrite (take_until_for_reviewers pr _ N reviewers Hlogins chosen' Hlt'). cbv zeta.
  assert (Hc : count_pending user pr = List.length (filter (login_is user) reviewers))
    by (unfold count_pending; rewrite Hrev; reflexivity).
  rewrite <- Hc.
  destruct (Z.leb_spec (N - Z.of_nat (List.length chosen'))
              (Z.of_nat (count_pending user pr))); [lia |].
  rewrite exec_scan_limiter.
  rewrite (gives_up_not_fails w (S t') hdrs (Hstops url t' pr hdrs Hurl Hresp (S t'))).
  rewrite (Hstops url t' pr hdrs Hurl Hresp (S t')).
  cbn [logging yields log ticks result_of].
  split.
  { rewrite requests_app, Hreq. cbn. lia. }
  split; [| reflexivity].
  unfold reports in *. rewrite filter_app, Hrep. reflexivity.
Qed.

End ReviewScan.

(* ================================================================= *)
(** ** The command *)

Section Command.

Variable repr_float : Z -> string.
Variable repr_container : json -> string.
Variable w : world.

Lemma exec_checks {Y : Type} (t : nat) (N : Z) (noun : option string) :
  exists l,
    error_traffic l /\
    exec (Y:=Y) w t
      (number_of_issues <- check_number_of_issues N error_handler ;;
       pull_request <- check_pull_request noun error_handler ;;
       Ret ((number_of_issues, Some pull_request, Some None) : locals))
    = mkRun [] l t (Returned (checked_number N, Some (checked_kind noun), Some None)).
Proof.
  unfold check_number_of_issues, check_pull_request, checked_number, checked_kind.
  destruct (N <? 1); [| cbn [bind]; destruct (N >? 10)];
    destruct (noun_in noun issue_nouns); try destruct (noun_in noun pr_nouns);
    eexists; (split; [| reflexivity]); repeat constructor.
Qed.

Lemma checked_number_range (N : Z) : 1 <= checked_number N <= 10.
Proof.
  unfold checked_number.
  destruct (Z.ltb_spec N 1); [lia |]. destruct (Z.gtb_spec N 10); lia.
Qed.

(** The commands [rand] and [fq], from the run of [get_issues] they start. *)
Lemma exec_command_function (t fuel : nat) (ctx : author_obj) (N : Z)
    (noun : option string) (name : string) (conf : config) :
  mem name ["rand"; "fq"] = true ->
  let fetch := exec w t (get_issues repr_float fuel (repository conf) (closed conf)
                           (checked_kind noun) (include_labels conf)
                           (exclude_labels conf) (sort conf) (ascending_order conf)
                           error_handler) in
  result_of fetch = Returned tt ->
  exists l,
    error_traffic l /\
    exec (Y:=unit) w t
      (command_function repr_float repr_container fuel ctx N noun name conf) =
    let choice :=
      exec (Y:=unit) w (ticks fetch)
        (chosen <-
           (if String.eqb name "rand"
            then choose_rand (yields fetch) (checked_number N)
            else choose_feedback (yields fetch) (checked_number N)
                   (checked_kind noun)) ;;
         reply <- lift (reply_for repr_container (fst chosen) (snd chosen)
                          (checked_number N)) ;;
         Emit (Send reply) (set_playing "The Waiting Game")) in
    mkRun (yields choice) (l ++ Playing "On The Cue" :: log fetch ++ log choice)
      (ticks choice) (result_of choice).
Proof.
  intros Hname fetch Hfetch. unfold command_function. rewrite Hname.
  assert (Hrq : mem name ["rq"] = false /\ String.eqb name "rq" = false).
  { unfold mem in *. cbn [existsb] in *. rewrite !orb_false_r in *.
    destruct (String.eqb_spec name "rand") as [-> | _]; [split; reflexivity |].
    destruct (String.eqb_spec name "fq") as [-> | _]; [split; reflexivity |].
    discriminate Hname. }
  destruct Hrq as [Hrq Hrq'].
  destruct (exec_checks (Y:=unit) t N noun) as (l & Hlt & Hl).
  exists l. split; [exact Hlt |]. rewrite exec_bind, Hl. cbv zeta. cbn [result_of ticks yields log].
  rewrite Hrq. cbn [bind]. rewrite Hrq'.
  match goal with
  | |- context [exec w t ?p] =>
      assert (Hrun : exec (Y:=unit) w t p =
                     logging (Playing "On The Cue")
                       (let choice :=
                          exec (Y:=unit) w (ticks fetch)
                            (chosen <-
                               (if String.eqb name "rand"
                                then choose_rand (yields fetch) (checked_number N)
                                else choose_feedback (yields fetch) (checked_number N)
                                       (checked_kind noun)) ;;
                             reply <- lift (reply_for repr_container (fst chosen)
                                              (snd chosen) (checked_number N)) ;;
                             Emit (Send reply) (set_playing "The Waiting Game")) in
                        mkRun (yields choice) (log fetch ++ log choice) (ticks choice)
                          (result_of choice)))
  end.
  { unfold set_playing at 1. cbn [bind exec]. f_equal.
    rewrite exec_bind, exec_collect. cbv zeta. fold fetch. rewrite Hfetch.
    cbn [result_of ticks yields log app]. reflexivity. }
  rewrite Hrun. reflexivity.
Qed.

(** C6. [choose_feedback] returns the first [N] items of the list, which is
    the whole list when it holds no more than [N] items ([[a,b,c]] for
    [N = 5]), with the title of the feedback queue; and [command_function]
    flags a short result: when the fetch of an [fq] command ends and the reply
    can be composed, the reply it sends carries the footer
    "There weren't enough..." exactly when fewer items were fetched than the
    (checked) count asks for. *)
Theorem choose_feedback_oldest_prefix (t : nat) (issues : list json) (N : Z)
    (pull_request : bool) :
  exec (Y:=unit) w t (choose_feedback issues N pull_request)
  = mkRun [] [] t
      (Returned (slice_to issues N,
                 "Oldest " ++ str_int N ++ " "
                 ++ (if pull_request then "PR(s)" else "issue(s)")
                 ++ " in feedback queue:")) /\
  (0 <= N -> slice_to issues N = firstn (Z.to_nat N) issues) /\
  (Z.of_nat (List.length issues) <= N -> slice_to issues N = issues) /\
  (forall a b c : json, slice_to [a; b; c] 5 = [a; b; c]) /\
  (forall (fuel : nat) (ctx : author_obj) (noun : option string) (conf : config),
     let fetch := exec w t (get_issues repr_float fuel (repository conf) (closed conf)
                              (checked_kind noun) (include_labels conf)
                              (exclude_labels conf) (sort conf)
                              (ascending_order conf) error_handler) in
     let n := checked_number N in
     let r := exec (Y:=unit) w t
                (command_function repr_float repr_container fuel ctx N noun "fq" conf) in
     result_of fetch = Returned tt ->
     forall reply,
       reply_for repr_container (slice_to (yields fetch) n)
         ("Oldest " ++ str_int n ++ " "
          ++ (if checked_kind noun then "PR(s)" else "issue(s)")
          ++ " in feedback queue:") n = Ok reply ->
       result_of r = Returned tt /\
       (exists l, log r = (l ++ [Send reply; Playing "The Waiting Game"])%list) /\
       footer reply = (if Z.of_nat (List.length (yields fetch)) <? n
                       then Some "There weren't enough..." else None)).
Proof.
  split; [reflexivity |].
  split; [apply slice_to_firstn |].
  split; [apply slice_to_all |].
  split; [reflexivity |].
  intros fuel ctx noun conf fetch n r Hfetch reply Hreply.
  destruct (exec_command_function t fuel ctx N noun "fq" conf eq_refl Hfetch)
    as (l & _ & Hrun).
  subst r. rewrite Hrun. clear Hrun. cbv zeta.
  change (String.eqb "fq" "rand") with false. cbv iota.
  unfold choose_feedback. cbn [bind fst snd]. fold n. fold fetch.
  rewrite Hreply. cbn [lift bind exec set_playing logging result_of log yields ticks].
  split; [reflexivity |]. split.
  - exists (l ++ Playing "On The Cue" :: log fetch)%list.
    rewrite <- app_assoc. reflexivity.
  - pose proof (reply_for_footer _ _ _ _ _ Hreply) as Hfoot. rewrite Hfoot.
    pose proof (checked_number_range N) as Hn. fold n in Hn.
    rewrite slice_to_length by lia.
    destruct (Z.ltb_spec (Z.of_nat (List.length (yields fetch))) n);
      destruct (Z.ltb_spec (Z.min n (Z.of_nat (List.length (yields fetch)))) n);
      try reflexivity; lia.
Qed.

(** C10. On the empty list every request for at least one item makes
    [random.choices] index an empty population: [choose_rand] raises
    [IndexError] and returns no selection.  The [rand] command reaches this
    whenever its fetch ends without an item, whatever count was asked for:
    the command raises, and after the fetch it neither sends a reply nor
    resets its status. *)
Theorem choose_rand_empty_raises (t : nat) (N : Z) (HN : 1 <= N) :
  exec (Y:=unit) w t (choose_rand [] N) = mkRun [] [] (S t) (Raised IndexError) /\
  (forall (M : Z) (fuel : nat) (ctx : author_obj) (noun : option string)
          (conf : config),
     let fetch := exec w t (get_issues repr_float fuel (repository conf) (closed conf)
                              (checked_kind noun) (include_labels conf)
                              (exclude_labels conf) (sort conf)
                              (ascending_order conf) error_handler) in
     let r := exec (Y:=unit) w t
                (command_function repr_float repr_container fuel ctx M noun "rand" conf) in
     result_of fetch = Returned tt ->
     yields fetch = [] ->
     result_of r = Raised IndexError /\
     exists l, error_traffic l /\
               log r = (l ++ Playing "On The Cue" :: log fetch)%list).
Proof.
  split; [apply exec_choose_rand_empty; exact HN |].
  intros M fuel ctx noun conf fetch r Hfetch Hnone.
  destruct (exec_command_function t fuel ctx M noun "rand" conf eq_refl Hfetch)
    as (l & Hl & Hrun).
  subst r. rewrite Hrun. clear Hrun. cbv zeta.
  change (String.eqb "rand" "rand") with true. cbv iota. fold fetch.
  rewrite Hnone, exec_bind, exec_choose_rand_empty by apply checked_number_range.
  cbn [result_of log yields ticks]. split; [reflexivity |].
  exists l. split; [exact Hl |]. rewrite app_nil_r. reflexivity.
Qed.

End Command.

(* ================================================================= *)
(** ** Requests made by the review queue *)

(** Leaving a generator early never costs a request more than running it to
    its end. *)
Lemma take_until_requests {A Y R : Type} (w : world) (N : Z) (g : proc A R) :
  forall (chosen : list A) (t : nat),
    (requests (log (exec (Y:=Y) w t (take_until g chosen N)))
     <= requests (log (exec w t g)))%nat.
Proof.
  induction g as [a | e | y k IH | u k IH | s k IH | k IH | n k IH | e k IH | ];
    intros chosen t; cbn [take_until exec].
  - cbn. lia.
  - cbn. lia.
  - destruct (Z.of_nat (List.length (chosen ++ [y])) =? N).
    + cbn. lia.
    + apply IH.
  - cbn [logging log]. rewrite !requests_cons. specialize (IH (net w t u) chosen (S t)).
    lia.
  - destruct (datetime_fromtimestamp w s) as [local | x]; [apply IH | cbn; lia].
  - apply IH.
  - apply IH.
  - cbn [logging log]. rewrite !requests_cons. specialize (IH chosen t). lia.
  - cbn. lia.
Qed.

Lemma filter_requests {R : Type} (w : world) (user : string) (g : proc json R)
    (t : nat) :
  (requests (log (exec w t (pr_with_pending_review g user)))
   <= requests (log (exec w t g)))%nat.
Proof.
  destruct (exec_pr_with_pending_review user w g t) as (_ & l & Hl).
  rewrite Hl, requests_app. lia.
Qed.

Lemma github_ratelimiter_requests {Y : Type} (repr_float : Z -> string) (w : world)
    (t : nat) (hdrs : headers) (error_channel : handler) :
  requests (log (exec (Y:=Y) w t (github_ratelimiter repr_float hdrs error_channel))) = O.
Proof.
  rewrite exec_github_ratelimiter.
  destruct (fails w hdrs); [reflexivity |].
  destruct (gives_up w t hdrs); [destruct error_channel; reflexivity |].
  destruct (x_ratelimit_remaining hdrs =? 1); reflexivity.
Qed.

(** The enricher makes at most one request per input item. *)
Lemma get_pr_details_requests (repr_float : Z -> string) (w : world)
    (error_channel : handler) (issues : list json) :
  forall t,
    (requests (log (exec w t (get_pr_details repr_float issues error_channel)))
     <= List.length issues)%nat.
Proof.
  induction issues as [| issue issues IH]; intros t; cbn [get_pr_details List.length].
  - cbn. lia.
  - destruct (pull_request_url issue) as [u | e]; cbn [lift bind exec]; [| cbn; lia].
    cbn [logging log]. rewrite requests_cons. cbn [is_request].
    destruct (net w t u) as [| | pr hdrs].
    + rewrite exec_await_error_channel. destruct error_channel; cbn; lia.
    + cbn. lia.
    + cbn [exec yielding log]. rewrite exec_bind. cbv zeta.
      pose proof (github_ratelimiter_requests (Y:=json) repr_float w (S t) hdrs
                    error_channel) as H0.
      destruct (result_of (exec w (S t) (github_ratelimiter repr_float hdrs
                                           error_channel))) as [v | e |];
        cbn [log]; try lia.
      rewrite requests_app, H0. destruct (truthy v).
      * cbn. lia.
      * specialize (IH (ticks (exec (Y:=json) w (S t)
                                 (github_ratelimiter repr_float hdrs error_channel)))).
        lia.
Qed.

Lemma count_pending_once (user : string) (pr : json) :
  (count_pending user pr <= 1)%nat ->
  count_pending user pr = if has_pending_review user pr then 1%nat else O.
Proof.
  unfold count_pending, has_pending_review.
  destruct (requested_reviewers pr) as [reviewers | e]; [| reflexivity].
  induction reviewers as [| reviewer rs IH]; cbn [filter existsb List.length].
  - reflexivity.
  - destruct (login_is user reviewer); cbn [List.length orb].
    + intros H. destruct (filter (login_is user) rs); [reflexivity | cbn in H; lia].
    + exact IH.
Qed.

Lemma needed_position (user : string) (n : nat) (prs : list json) :
  Forall (fun pr => (count_pending user pr <= 1)%nat) prs ->
  needed n (map (count_pending user) prs) = position user n prs.
Proof.
  unfold position. intros H. revert n.
  induction H as [| pr prs Hpr _ IH]; intros n; cbn [map needed]; [reflexivity |].
  rewrite (count_pending_once user pr Hpr), IH. reflexivity.
Qed.

Section ReviewQueue.

Variable repr_float : Z -> string.
Variable w : world.

(** C3, as the code has it.  Without an identity, [choose_review] returns the
    first [N] items of the list and requests nothing.  With an identity and
    [N >= 1] it pulls the filtered, enriched sequence one item at a time and
    stops at the item that supplies the [N]-th match: it never makes more
    detail requests than running the enricher to its end would, nor more than
    there are input items; when every detail request is answered it makes at
    most as many requests as the position of the item supplying the [N]-th
    match (the input length if there are fewer matches), and exactly that many
    when every answer is a well-formed pull request and the rate limiter
    neither gives up nor fails on an answer.  When the limiter gives up on the
    answer to an item before [N] matches are collected, the scan ends at that
    item with one request made per item up to it, which is fewer than that
    position whenever further items follow.  The position is the position of
    the [N]-th matching item when no item lists the identity twice. *)
Theorem choose_review_scan (t : nat) (issues : list json) (N : Z) (user : string) :
  (forall author, nonempty author = false ->
     exec (Y:=unit) w t (choose_review repr_float issues N author)
     = mkRun [] [] t
         (Returned (slice_to issues N,
                    "Oldest " ++ str_int N ++ " PR(s) in review queue:"))) /\
  (0 <= N -> slice_to issues N = firstn (Z.to_nat N) issues) /\
  (nonempty (Some user) = true -> 1 <= N ->
   let r := exec (Y:=unit) w t (choose_review repr_float issues N (Some user)) in
   let n := Z.to_nat N in
   (requests (log r)
    <= requests (log (exec w t (get_pr_details repr_float issues lambda_True))))%nat /\
   (requests (log r) <= List.length issues)%nat /\
   (forall prs,
      Forall2 (answered w) issues prs ->
      (requests (log r) <= needed n (map (count_pending user) prs))%nat /\
      (Forall well_formed_pr prs -> Forall (calm w) issues ->
       requests (log r) = needed n (map (count_pending user) prs) /\
       result_of r
       = Returned (firstn n (flat_map (fun pr => repeat pr (count_pending user pr)) prs),
                   "Oldest " ++ str_int N ++ " PR(s) for @" ++ user ++ ":")) /\
      (Forall (fun pr => (count_pending user pr <= 1)%nat) prs ->
       needed n (map (count_pending user) prs) = position user n prs)) /\
   (forall pre prs last pr rest,
      issues = (pre ++ last :: rest)%list ->
      Forall2 (answered w) pre prs -> Forall well_formed_pr prs ->
      Forall (calm w) pre ->
      answered w last pr -> well_formed_pr pr -> stops w last ->
      (list_sum (map (count_pending user) (prs ++ [pr])) < n)%nat ->
      requests (log r) = S (List.length pre) /\
      List.length (reports (log r)) = 1%nat /\
      result_of r = Raised TypeError /\
      (forall more, more <> [] ->
         (requests (log r)
          < needed n (map (count_pending user) (prs ++ pr :: more)))%nat))).
Proof.
  split; [| split].
  - intros author Hno. unfold choose_review. rewrite Hno. reflexivity.
  - apply slice_to_firstn.
  - intros Huser HN. cbv zeta. unfold choose_review. rewrite Huser.
    rewrite exec_bind_ret. cbn [log result_of].
    set (scan := exec (Y:=unit) w t
                   (take_until
                      (pr_with_pending_review
                         (get_pr_details repr_float issues lambda_True) user) [] N)).
    assert (Hfull : (requests (log scan)
                     <= requests (log (exec w t (get_pr_details repr_float issues
                                                   lambda_True))))%nat).
    { unfold scan. etransitivity; [apply take_until_requests | apply filter_requests]. }
    split; [exact Hfull |]. split.
    { etransitivity; [exact Hfull | apply get_pr_details_requests]. }
    split.
    + intros prs Hans.
      pose proof (scan_bound repr_float w user issues prs Hans [] N t) as Hle.
      cbv zeta in Hle. cbn [List.length Z.of_nat] in Hle. rewrite Z.sub_0_r in Hle.
      fold scan in Hle. split; [apply Hle; lia |]. split.
      * intros Hwf Hcalm.
        destruct (scan_spec repr_float w user issues prs Hans Hwf Hcalm [] N t)
          as (Hreq & _ & Hres); [cbn; lia |].
        cbn [List.length Z.of_nat] in Hreq, Hres. rewrite Z.sub_0_r in Hreq, Hres.
        fold scan in Hreq, Hres. split; [exact Hreq |]. rewrite Hres. reflexivity.
      * apply needed_position.
    + intros pre prs last pr rest -> Hans Hwf Hcalm Hlast Hpr Hstops Hlt.
      destruct (scan_gives_up repr_float w user pre prs last pr rest N t
                  Hans Hwf Hcalm Hlast Hpr Hstops) as (Hreq & Hrep & Hres); [lia |].
      fold scan in Hreq, Hrep, Hres.
      split; [exact Hreq |]. split; [exact Hrep |].
      split; [rewrite Hres; reflexivity |].
      intros more Hmore. rewrite Hreq.
      pose proof (needed_beyond (map (count_pending user) (prs ++ [pr]))
                    (map (count_pending user) more) (Z.to_nat N) Hlt) as Hb.
      rewrite <- map_app, <- app_assoc, length_map, length_app in Hb.
      cbn [app List.length] in Hb.
      rewrite (Forall2_length Hans).
      assert (Hne : map (count_pending user) more <> [])
        by (destruct more; [contradiction | discriminate]).
      specialize (Hb Hne). lia.
Qed.

End ReviewQueue.

(* ================================================================= *)
(** ** The search URL *)

Section Encoding.

Import Urllib.


































End Encoding.

(* ================================================================= *)
(** ** What the stages can do *)

Section Emits.

Variable P : event -> Prop.

Lemma emits_exec {Y R : Type} (w : world) (p : proc Y R) :
  emits P p -> forall t, Forall P (log (exec w t p)).
Proof.
  induction p as [a | e | y k IH | u k IH | s k IH | k IH | n k IH | e k IH | ];
    cbn [emits exec]; intros H t; try (constructor; fail).
  - apply IH. exact H.
  - cbn [logging log]. constructor; [apply H | apply IH, H].
  - destruct (datetime_fromtimestamp w s) as [local | x]; [apply IH, H | constructor].
  - apply IH, H.
  - apply IH, H.
  - cbn [logging log]. constructor; [apply H | apply IH, H].
Qed.

Lemma emits_bind {Y A B : Type} (m : proc Y A) (f : A -> proc Y B) :
  emits P m -> (forall a, emits P (f a)) -> emits P (bind m f).
Proof.
  intros Hm Hf.
  induction m as [a | e | y k IH | u k IH | s k IH | k IH | n k IH | e k IH | ];
    cbn [bind emits] in *; auto.
  - split; [apply Hm |]. intros r. apply IH, Hm.
  - split; [apply Hm |]. apply IH, Hm.
Qed.

Lemma emits_lift {Y A : Type} (r : result A) : emits (Y:=Y) P (lift r).
Proof. destruct r; exact I. Qed.

Lemma emits_yield_each {Y : Type} (l : list Y) : emits P (yield_each l).
Proof. induction l; cbn; auto. Qed.

Lemma emits_collect {A Y R : Type} (g : proc A R) :
  emits P g -> forall acc, emits (Y:=Y) P (collect g acc).
Proof.
  induction g as [a | e | y k IH | u k IH | s k IH | k IH | n k IH | e k IH | ];
    cbn [collect emits]; intros H acc; auto.
  - split; [apply H |]. intros r. apply IH, H.
  - split; [apply H |]. apply IH, H.
Qed.

Lemma emits_take_until {A Y R : Type} (N : Z) (g : proc A R) :
  emits P g -> forall chosen, emits (Y:=Y) P (take_until g chosen N).
Proof.
  induction g as [a | e | y k IH | u k IH | s k IH | k IH | n k IH | e k IH | ];
    cbn [take_until emits]; intros H chosen; auto.
  - destruct (Z.of_nat (List.length (chosen ++ [y])) =? N); [exact I | apply IH, H].
  - split; [apply H |]. intros r. apply IH, H.
  - split; [apply H |]. apply IH, H.
Qed.

Lemma emits_for_reviewers (pr : json) (user : string) (reviewers : list json) :
  emits P (for_reviewers pr reviewers user).
Proof.
  induction reviewers as [| reviewer rs IH]; cbn [for_reviewers]; [exact I |].
  apply emits_bind; [apply emits_lift |]. intros login.
  destruct (eq_str login user); cbn [emits]; exact IH.
Qed.

Lemma emits_pr_with_pending_review {R : Type} (user : string) (g : proc json R) :
  emits P g -> emits P (pr_with_pending_review g user).
Proof.
  induction g as [a | e | y k IH | u k IH | s k IH | k IH | n k IH | e k IH | ];
    cbn [pr_with_pending_review emits]; intros H; auto.
  - apply emits_bind; [apply emits_lift |]. intros reviewers.
    apply emits_bind; [apply emits_for_reviewers |]. intros _. apply IH, H.
  - split; [apply H |]. intros r. apply IH, H.
  - split; [apply H |]. apply IH, H.
Qed.

End Emits.

Section FetchEvents.

Variable repr_float : Z -> string.

Lemma emits_timeout_report {Y : Type} (error_channel : handler) (description : string) :
  emits (Y:=Y) fetch_event
    (await_error_channel error_channel "API Request timed out" description).
Proof. destruct error_channel; cbn; auto. Qed.

Lemma emits_github_ratelimiter {Y : Type} (hdrs : headers) (error_channel : handler) :
  emits (Y:=Y) fetch_event (github_ratelimiter repr_float hdrs error_channel).
Proof.
  unfold github_ratelimiter.
  destruct (x_ratelimit_remaining hdrs =? 1); [| exact I].
  cbn [emits]. intros reset now.
  destruct (Z.gtb_spec (reset - now + 1000000) (61 * 1000000)).
  - apply emits_bind; [apply emits_timeout_report | intros _; exact I].
  - cbn. auto.
Qed.

Lemma emits_get_issues_loop (query_url : string) (error_channel : handler)
    (fuel : nat) :
  forall data_count page,
    emits fetch_event
      (get_issues_loop repr_float fuel query_url error_channel data_count page).
Proof.
  induction fuel as [| fuel IH]; intros data_count page; cbn [get_issues_loop emits];
    [exact I |].
  split; [exact I |]. intros [| | data hdrs].
  - apply emits_timeout_report.
  - exact I.
  - repeat (apply emits_bind; [apply emits_lift |]; intros ?).
    apply emits_bind; [apply emits_yield_each |]. intros _.
    apply emits_bind; [apply emits_github_ratelimiter |]. intros v.
    destruct (truthy v); [exact I |].
    destruct (eq_int _ _); [exact I | apply IH].
Qed.

Lemma emits_get_pr_details (error_channel : handler) (issues : list json) :
  emits fetch_event (get_pr_details repr_float issues error_channel).
Proof.
  induction issues as [| issue issues IH]; cbn [get_pr_details]; [exact I |].
  apply emits_bind; [apply emits_lift |]. intros url. cbn [emits].
  split; [exact I |]. intros [| | pr hdrs].
  - apply emits_timeout_report.
  - exact I.
  - cbn [emits]. apply emits_bind; [apply emits_github_ratelimiter |]. intros v.
    destruct (truthy v); [exact I | exact IH].
Qed.

Lemma emits_choices {Y A : Type} (population : list A) (k : nat) :
  emits (Y:=Y) fetch_event (choices population k).
Proof.
  induction k as [| k IH]; cbn [choices]; [exact I |].
  apply emits_bind.
  - cbn [emits]. intros i. apply emits_lift.
  - intros x. apply emits_bind; [exact IH | intros l; exact I].
Qed.

Lemma emits_choose_review {Y : Type} (issues : list json) (N : Z)
    (author : option string) :
  emits (Y:=Y) fetch_event (choose_review repr_float issues N author).
Proof.
  unfold choose_review. apply emits_bind; [| intros c; exact I].
  destruct (nonempty author); [| exact I].
  destruct author as [user |]; [| exact I].
  apply emits_take_until, emits_pr_with_pending_review, emits_get_pr_details.
Qed.

(** X1.  Whatever the API answers, the fetching stages only make requests, call
    the error callback about a timed out API request (which, for
    [error_handler], sends a red embed), and sleep for at most 61 seconds at a
    time; they never change the status and never send a reply. *)
Theorem fetch_stages_actions (w : world) (t fuel : nat) (repository : string)
    (closed pull_request : bool) (include_labels exclude_labels : list string)
    (sort : string) (ascending_order : bool) (error_channel : handler)
    (issues : list json) (N : Z) (author : option string) :
  Forall fetch_event
    (log (exec w t (get_issues repr_float fuel repository closed pull_request
                      include_labels exclude_labels sort ascending_order
                      error_channel))) /\
  Forall fetch_event
    (log (exec w t (get_pr_details repr_float issues error_channel))) /\
  Forall fetch_event
    (log (exec (Y:=unit) w t (choose_review repr_float issues N author))).
Proof.
  split; [| split]; apply emits_exec.
  - apply emits_get_issues_loop.
  - apply emits_get_pr_details.
  - apply emits_choose_review.
Qed.

End FetchEvents.

(* ================================================================= *)
(** ** The paged fetcher against any API *)

Lemma request_urls_app (l l' : list event) :
  request_urls (l ++ l') = (request_urls l ++ request_urls l')%list.
Proof. unfold request_urls. apply flat_map_app. Qed.

Lemma reports_app (l l' : list event) :
  reports (l ++ l') = (reports l ++ reports l')%list.
Proof. unfold reports. apply filter_app. Qed.

Lemma pages_from_S (query_url : string) (page : Z) (k : nat) :
  pages_from query_url page (S k)
  = search_url query_url page :: pages_from query_url (page + 1) k.
Proof.
  unfold pages_from. cbn [seq map]. rewrite Z.add_0_r. f_equal.
  rewrite <- seq_shift, map_map. apply map_ext. intros i. f_equal. lia.
Qed.

Section AnyApi.

Variable repr_float : Z -> string.
Variable w : world.
Variable url : string.
Variable error_channel : handler.

(** What one run of the limiter leaves in the log. *)
Lemma github_ratelimiter_log (t : nat) (hdrs : headers) :
  let r := exec (Y:=json) w t (github_ratelimiter repr_float hdrs error_channel) in
  yields r = [] /\ request_urls (log r) = [] /\
  (reports (log r) = [] /\
   (result_of r = Returned 0 \/ result_of r = Raised OverflowError) \/
   List.length (reports (log r)) = 1%nat /\
   (awaitable error_channel = false /\ result_of r = Raised TypeError \/
    exists v, result_of r = Returned v /\ truthy v = true)).
Proof.
  cbv zeta. rewrite exec_github_ratelimiter.
  destruct (fails w hdrs).
  { split; [reflexivity |]. split; [reflexivity |]. left. split; [reflexivity |].
    right. reflexivity. }
  destruct (gives_up w t hdrs) eqn:G.
  - cbv zeta. split; [reflexivity |]. split; [destruct error_channel; reflexivity |].
    right. split; [destruct error_channel; reflexivity |].
    cbn [result_of]. destruct (awaitable error_channel); [right | left; auto].
    eexists. split; [reflexivity |]. apply truthy_sleep_time.
    unfold gives_up in G. apply andb_prop in G. destruct G as [_ G]. lia.
  - destruct (x_ratelimit_remaining hdrs =? 1);
      (split; [reflexivity |]; split; [reflexivity |]; left;
       split; [reflexivity | left; reflexivity]).
Qed.

Lemma get_issues_loop_any (fuel : nat) :
  forall (data_count page : Z) (t : nat),
    let r := exec w t (get_issues_loop repr_float fuel url error_channel
                         data_count page) in
    (exists k, (k <= fuel)%nat /\ request_urls (log r) = pages_from url page k) /\
    (List.length (reports (log r)) <= 1)%nat /\
    (forall e, result_of r = Raised e -> awaitable error_channel = true ->
               reports (log r) = []).
Proof.
  induction fuel as [| fuel IH]; intros data_count page t; cbv zeta.
  - cbn. split; [exists O; split; [lia | reflexivity] |].
    split; [lia | discriminate].
  - cbn [get_issues_loop exec].
    assert (Hstop : forall (r : run json unit),
               request_urls (log r) = [] ->
               (List.length (reports (log r)) <= 1)%nat ->
               (forall e, result_of r = Raised e -> awaitable error_channel = true ->
                          reports (log r) = []) ->
               (exists k, (k <= S fuel)%nat /\
                          request_urls (log (logging (Request (search_url url page)) r))
                          = pages_from url page k) /\
               (List.length (reports (log (logging (Request (search_url url page)) r)))
                <= 1)%nat /\
               (forall e, result_of (logging (Request (search_url url page)) r)
                          = Raised e ->
                          awaitable error_channel = true ->
                          reports (log (logging (Request (search_url url page)) r))
                          = [])).
    { intros r Hu Hr He. cbn [logging log result_of]. split; [| split].
      - exists 1%nat. split; [lia |]. rewrite pages_from_S.
        cbn [request_urls flat_map app]. fold (request_urls (log r)). rewrite Hu.
        reflexivity.
      - exact Hr.
      - exact He. }
    destruct (net w t (search_url url page)) as [| | data hdrs].
    + apply Hstop; rewrite exec_await_error_channel; cbn [log result_of].
      * destruct error_channel; reflexivity.
      * destruct error_channel; cbn; lia.
      * intros e He Haw. rewrite Haw in He. discriminate He.
    + apply Hstop; cbn; [reflexivity | lia | reflexivity].
    + destruct (getitem data "total_count") as [total_count | e0]; cbn [lift bind];
        [| apply Hstop; cbn; [reflexivity | lia | reflexivity]].
      destruct (getitem data "items") as [items | e0]; cbn [lift bind];
        [| apply Hstop; cbn; [reflexivity | lia | reflexivity]].
      destruct (len items) as [n | e0]; cbn [lift bind];
        [| apply Hstop; cbn; [reflexivity | lia | reflexivity]].
      destruct (iter items) as [l | e0]; cbn [lift bind];
        [| apply Hstop; cbn; [reflexivity | lia | reflexivity]].
      rewrite exec_bind, exec_yield_each. cbv zeta. cbn [result_of yields log ticks].
      rewrite exec_bind. cbv zeta.
      destruct (github_ratelimiter_log (S t) hdrs) as (Hy & Hu & Hcases).
      set (rl := exec w (S t) (github_ratelimiter repr_float hdrs error_channel)) in *.
      destruct Hcases
        as [(Hrep & [Hres | Hres]) | (Hrep & [(Haw & Hres) | (v & Hres & Hv)])];
        rewrite Hres.
      2: { (* the limiter fails *)
        apply Hstop; cbn [log result_of app].
        - exact Hu.
        - rewrite Hrep. cbn. lia.
        - intros e _ _. exact Hrep. }
      * (* the loop goes on *)
        cbn [truthy Z.eqb negb].
        destruct (eq_int total_count (data_count + n)).
        -- apply Hstop; cbn [exec log result_of app].
           ++ rewrite app_nil_r. exact Hu.
           ++ rewrite app_nil_r, Hrep. cbn. lia.
           ++ intros e He. discriminate He.
        -- destruct (IH (data_count + n) (page + 1) (ticks rl))
             as ((k & Hk & Hurls) & Hreps & Hexn).
           cbn [logging log result_of app]. split; [| split].
           ++ exists (S k). split; [lia |]. rewrite pages_from_S.
              cbn [request_urls flat_map app]. f_equal.
              fold (request_urls (log rl ++ log (exec w (ticks rl)
                      (get_issues_loop repr_float fuel url error_channel
                         (data_count + n) (page + 1))))).
              rewrite request_urls_app, Hu. exact Hurls.
           ++ cbn [reports filter is_report].
              fold (reports (log rl ++ log (exec w (ticks rl)
                      (get_issues_loop repr_float fuel url error_channel
                         (data_count + n) (page + 1))))).
              rewrite reports_app, Hrep. exact Hreps.
           ++ intros e He Haw. cbn [reports filter is_report].
              fold (reports (log rl ++ log (exec w (ticks rl)
                      (get_issues_loop repr_float fuel url error_channel
                         (data_count + n) (page + 1))))).
              rewrite reports_app, Hrep. exact (Hexn e He Haw).
      * (* the limiter gives up, the callback cannot be awaited *)
        apply Hstop; cbn [log result_of app].
        -- exact Hu.
        -- rewrite Hrep. lia.
        -- intros e _ Haw'. congruence.
      * (* the limiter gives up *)
        rewrite Hv. apply Hstop; cbn [exec log result_of app].
        -- rewrite app_nil_r. exact Hu.
        -- rewrite app_nil_r, Hrep. lia.
        -- intros e He. discriminate He.
Qed.

End AnyApi.

Section GetIssuesAnyApi.

Variable repr_float : Z -> string.
Variable w : world.

(** X2.  Whatever the API answers and for every bound on the iterations,
    [get_issues] requests the pages 1, 2, 3, ... of its query in this order,
    each at most once and none skipped, and calls the error callback at most
    once. *)
Theorem get_issues_requests_pages (t fuel : nat) (repository : string)
    (closed pull_request : bool) (include_labels exclude_labels : list string)
    (sort : string) (ascending_order : bool) (error_channel : handler) :
  let url := query_url repository closed pull_request include_labels exclude_labels
               sort ascending_order in
  let r := exec w t (get_issues repr_float fuel repository closed pull_request
                       include_labels exclude_labels sort ascending_order
                       error_channel) in
  (exists k, (k <= fuel)%nat /\ request_urls (log r) = pages_from url 1 k) /\
  (List.length (reports (log r)) <= 1)%nat.
Proof.
  cbv zeta. unfold get_issues.
  destruct (get_issues_loop_any repr_float w
              (query_url repository closed pull_request include_labels exclude_labels
                 sort ascending_order) error_channel fuel 0 1 t) as (H1 & H2 & _).
  split; assumption.
Qed.

(** X3.  Only timeouts and give-ups are reported: when [get_issues] raises with an
    awaitable callback, the callback was never called.  An error status of the
    API is such a case: the first request failing, [get_issues] raises
    [ClientError] having yielded nothing. *)
Theorem get_issues_unreported_failures (t fuel : nat) (repository : string)
    (closed pull_request : bool) (include_labels exclude_labels : list string)
    (sort : string) (ascending_order : bool) (error_channel : handler)
    (Haw : awaitable error_channel = true) :
  let url := query_url repository closed pull_request include_labels exclude_labels
               sort ascending_order in
  let r := exec w t (get_issues repr_float (S fuel) repository closed pull_request
                       include_labels exclude_labels sort ascending_order
                       error_channel) in
  (forall e, result_of r = Raised e -> reports (log r) = []) /\
  (net w t (search_url url 1) = Failed ->
   r = mkRun [] [Request (search_url url 1)] (S t) (Raised ClientError)).
Proof.
  cbv zeta. unfold get_issues. split.
  - intros e He.
    destruct (get_issues_loop_any repr_float w
                (query_url repository closed pull_request include_labels
                   exclude_labels sort ascending_order) error_channel (S fuel) 0 1 t)
      as (_ & _ & H).
    exact (H e He Haw).
  - intros Hfail. cbn [get_issues_loop exec]. rewrite Hfail. reflexivity.
Qed.

Lemma get_issues_loop_oversupplied (T : Z) (url : string) (error_channel : handler) :
  oversupplies w T ->
  forall (fuel : nat) (data_count page : Z) (t : nat),
    0 <= data_count ->
    let r := exec w t (get_issues_loop repr_float fuel url error_channel
                         data_count page) in
    result_of r = Diverged /\ requests (log r) = fuel /\ reports (log r) = [] /\
    T * Z.of_nat fuel <= Z.of_nat (List.length (yields r)) - Z.of_nat fuel.
Proof.
  intros Hw. induction fuel as [| fuel IH]; intros data_count page t Hdc; cbv zeta.
  - cbn. repeat split. lia.
  - cbn [get_issues_loop exec].
    destruct (Hw t (search_url url page)) as (data & hdrs & items & Hnet & Htc & Hit
                                              & Hlen & Hcalm).
    rewrite Hnet, Htc, Hit. cbn [lift bind len iter].
    rewrite exec_bind, exec_yield_each. cbv zeta. cbn [result_of yields log ticks].
    rewrite exec_bind,
      (exec_github_ratelimiter_passes repr_float (Y:=json) w (S t) hdrs error_channel
         Hcalm).
    cbv zeta.
    assert (Hne : eq_int (JInt T) (data_count + Z.of_nat (List.length items)) = false)
      by (cbn [eq_int]; apply Z.eqb_neq; lia).
    assert (Hstep : forall t',
               let r' := exec w t' (get_issues_loop repr_float fuel url error_channel
                                      (data_count + Z.of_nat (List.length items))
                                      (page + 1)) in
               result_of r' = Diverged /\ requests (log r') = fuel /\
               reports (log r') = [] /\
               T * Z.of_nat fuel <= Z.of_nat (List.length (yields r')) - Z.of_nat fuel).
    { intros t'. apply IH. lia. }
    destruct (x_ratelimit_remaining hdrs =? 1);
      cbn [result_of ticks yields log truthy Z.eqb negb]; rewrite Hne;
      [destruct (Hstep (S (S t))) as (Hres & Hreq & Hrep & Hy)
      | destruct (Hstep (S t)) as (Hres & Hreq & Hrep & Hy)];
      cbn [logging yields log result_of app];
      (split; [exact Hres |]);
      (split; [rewrite ?requests_cons; cbn [is_request]; rewrite Hreq; reflexivity |]);
      (split; [cbn [reports filter is_report]; exact Hrep |]);
      rewrite !length_app; nia.
Qed.

(** X4.  The loop of [get_issues] only ends on a count equal to the reported total:
    against an API whose pages hold more items than the total they report
    (with headers the limiter passes), it never ends.  For every bound on the
    iterations it is still running after that many requests, having reported
    nothing and yielded more than the total. *)
Theorem get_issues_never_ends (T : Z) (Hw : oversupplies w T) (HT : 0 <= T)
    (t fuel : nat) (repository : string)
    (closed pull_request : bool) (include_labels exclude_labels : list string)
    (sort : string) (ascending_order : bool) (error_channel : handler) :
  let r := exec w t (get_issues repr_float fuel repository closed pull_request
                       include_labels exclude_labels sort ascending_order
                       error_channel) in
  result_of r = Diverged /\ requests (log r) = fuel /\ reports (log r) = [] /\
  ((1 <= fuel)%nat -> T < Z.of_nat (List.length (yields r))).
Proof.
  cbv zeta. unfold get_issues.
  destruct (get_issues_loop_oversupplied T
              (query_url repository closed pull_request include_labels exclude_labels
                 sort ascending_order) error_channel Hw fuel 0 1 t)
    as (Hres & Hreq & Hrep & Hy); [lia |].
  repeat split; try assumption.
  intros Hfuel. nia.
Qed.

End GetIssuesAnyApi.

(* ================================================================= *)
(** ** The detail enricher *)

Section Enricher.

Variable repr_float : Z -> string.
Variable w : world.
Variable error_channel : handler.

(** X5.  Whatever the API answers, the enricher requests the details of the input
    items in the order of the input, one request per item and none skipped,
    stopping at the first failure; it yields one item per answer, so at most
    one request is left without a yield; and it calls the error callback at
    most once. *)
Theorem get_pr_details_in_order (issues : list json) (t : nat) :
  let r := exec w t (get_pr_details repr_float issues error_channel) in
  exists k,
    (k <= List.length issues)%nat /\
    map pull_request_url (firstn k issues) = map Ok (request_urls (log r)) /\
    (List.length (yields r) <= k <= List.length (yields r) + 1)%nat /\
    (List.length (reports (log r)) <= 1)%nat.
Proof.
  revert t. induction issues as [| issue issues IH]; intros t; cbv zeta.
  - exists O. cbn. repeat split; lia.
  - cbn [get_pr_details].
    destruct (pull_request_url issue) as [url | e] eqn:Hurl; cbn [lift bind exec].
    + assert (Hstop : forall (r : run json unit),
                 request_urls (log r) = [] -> (List.length (yields r) <= 1)%nat ->
                 (List.length (reports (log r)) <= 1)%nat ->
                 exists k,
                   (k <= List.length (issue :: issues))%nat /\
                   map pull_request_url (firstn k (issue :: issues))
                   = map Ok (request_urls (log (logging (Request url) r))) /\
                   (List.length (yields (logging (Request url) r)) <= k
                    <= List.length (yields (logging (Request url) r)) + 1)%nat /\
                   (List.length (reports (log (logging (Request url) r))) <= 1)%nat).
      { intros r Hu Hy Hr. exists 1%nat. cbn [logging log yields List.length firstn map].
        cbn [request_urls flat_map app]. fold (request_urls (log r)).
        rewrite Hu, Hurl. repeat split; try lia. exact Hr. }
      destruct (net w t url) as [| | pr hdrs].
      * apply Hstop; rewrite exec_await_error_channel; cbn [log yields List.length];
          destruct error_channel; cbn; (reflexivity || lia).
      * apply Hstop; cbn; (reflexivity || lia).
      * cbn [exec]. rewrite exec_bind. cbv zeta.
        destruct (github_ratelimiter_log repr_float w error_channel (S t) hdrs)
          as (Hy & Hu & Hcases).
        set (rl := exec w (S t) (github_ratelimiter repr_float hdrs error_channel)) in *.
        destruct Hcases
          as [(Hrep & [Hres | Hres]) | (Hrep & [(Haw & Hres) | (v & Hres & Hv)])];
          rewrite Hres.
        2: { exists 1%nat.
             cbn [logging yielding log yields List.length firstn map result_of].
             cbn [request_urls flat_map app]. fold (request_urls (log rl)).
             rewrite Hu, Hurl, Hy. cbn [reports filter is_report].
             fold (reports (log rl)). rewrite Hrep. cbn. repeat split; lia. }
        -- cbn [truthy Z.eqb negb].
           destruct (IH (ticks rl)) as (k & Hk & Hurls & Hys & Hreps).
           exists (S k).
           cbn [logging yielding log yields List.length firstn map result_of].
           cbn [request_urls flat_map app].
           fold (request_urls (log rl ++ log (exec w (ticks rl)
                   (get_pr_details repr_float issues error_channel)))).
           rewrite request_urls_app, Hu, Hurl, Hurls, Hy.
           cbn [reports filter is_report].
           fold (reports (log rl ++ log (exec w (ticks rl)
                   (get_pr_details repr_float issues error_channel)))).
           rewrite reports_app, Hrep. cbn [app List.length].
           repeat split; lia.
        -- exists 1%nat.
           cbn [logging yielding log yields List.length firstn map result_of].
           cbn [request_urls flat_map app]. fold (request_urls (log rl)).
           rewrite Hu, Hurl, Hy. cbn [reports filter is_report].
           fold (reports (log rl)). rewrite Hrep. cbn. repeat split; lia.
        -- rewrite Hv. exists 1%nat.
           cbn [exec logging yielding log yields List.length firstn map result_of].
           rewrite !app_nil_r.
           cbn [request_urls flat_map app]. fold (request_urls (log rl)).
           rewrite Hu, Hurl, Hy. cbn [reports filter is_report].
           fold (reports (log rl)). rewrite Hrep. cbn. repeat split; lia.
    + exists O. cbn. repeat split; lia.
Qed.

(** The enricher over a list whose first items are all answered, with
    headers the limiter passes: their details are yielded in order,
    nothing is reported, and the enricher goes on with the rest. *)
Lemma get_pr_details_app (pre prs : list json) :
  Forall2 (answered w) pre prs ->
  Forall (calm w) pre ->
  forall (rest : list json) (t : nat),
  exists t' l,
    map pull_request_url pre = map Ok (request_urls l) /\
    reports l = [] /\
    exec w t (get_pr_details repr_float (pre ++ rest) error_channel)
    = mkRun (prs ++ yields (exec w t' (get_pr_details repr_float rest error_channel)))
        (l ++ log (exec w t' (get_pr_details repr_float rest error_channel)))
        (ticks (exec w t' (get_pr_details repr_float rest error_channel)))
        (result_of (exec w t' (get_pr_details repr_float rest error_channel))).
Proof.
  induction 1 as [| issue pr pre prs (url & Hurl & Hnet) _ IH]; intros Hcalm rest t.
  - exists t, []. repeat split. cbn [app].
    destruct (exec w t (get_pr_details repr_float rest error_channel)); reflexivity.
  - apply Forall_cons_iff in Hcalm. destruct Hcalm as [Hcalm1 Hcalm].
    destruct (Hnet t) as (hdrs & Hresp).
    cbn [app get_pr_details]. rewrite Hurl. cbn [lift bind exec]. rewrite Hresp.
    cbn [exec].
    rewrite exec_bind,
      (exec_github_ratelimiter_passes repr_float (Y:=json) w (S t) hdrs error_channel
         (Hcalm1 url t pr hdrs Hurl Hresp)).
    cbv zeta.
    destruct (x_ratelimit_remaining hdrs =? 1);
      cbn [result_of ticks yields log truthy Z.eqb negb].
    + destruct (IH Hcalm rest (S (S t))) as (t' & l & Hl & Hrep & E).
      exists t', (Request url :: Sleep (sleep_time_at w (S t) hdrs) :: l).
      rewrite E. cbn [logging yielding yields log ticks result_of app map].
      cbn [request_urls flat_map app]. fold (request_urls l).
      rewrite Hurl, Hl. repeat split. exact Hrep.
    + destruct (IH Hcalm rest (S t)) as (t' & l & Hl & Hrep & E).
      exists t', (Request url :: l).
      rewrite E. cbn [logging yielding yields log ticks result_of app map].
      cbn [request_urls flat_map app]. fold (request_urls l).
      rewrite Hurl, Hl. repeat split. exact Hrep.
Qed.

(** X6.  When every detail request is answered and the limiter neither gives up
    nor fails on an answer, the enricher yields the details of all the input
    items in the order of the input, with one request per item, reports
    nothing and ends normally, whatever the callback. *)
Theorem get_pr_details_enriches (issues prs : list json) (t : nat)
    (Hans : Forall2 (answered w) issues prs) (Hcalm : Forall (calm w) issues) :
  let r := exec w t (get_pr_details repr_float issues error_channel) in
  yields r = prs /\
  map pull_request_url issues = map Ok (request_urls (log r)) /\
  reports (log r) = [] /\
  result_of r = Returned tt.
Proof.
  cbv zeta.
  destruct (get_pr_details_app issues prs Hans Hcalm [] t) as (t' & l & Hl & Hrep & E).
  rewrite app_nil_r in E. rewrite E. cbn [get_pr_details exec yields log result_of].
  rewrite !app_nil_r. auto.
Qed.

(** X7.  A timeout on one item ends the enrichment: the details of the items
    before it stay yielded, the items after it are never requested, and the
    timeout is reported once.  With an awaitable callback the generator then
    ends normally; with the default callback of [get_pr_details], whose call
    cannot be awaited, it raises [TypeError]. *)
Theorem get_pr_details_timeout (pre prs : list json) (bad : json) (rest : list json)
    (url : string) (t : nat)
    (Hans : Forall2 (answered w) pre prs) (Hcalm : Forall (calm w) pre)
    (Hurl : pull_request_url bad = Ok url)
    (Hbad : forall t', net w t' url = TimedOut) :
  let r := exec w t (get_pr_details repr_float (pre ++ bad :: rest) error_channel) in
  yields r = prs /\
  requests (log r) = S (List.length pre) /\
  reports (log r)
  = [Report "API Request timed out" "Please check https://www.githubstatus.com/"] /\
  result_of r = (if awaitable error_channel then Returned tt else Raised TypeError).
Proof.
  cbv zeta.
  destruct (get_pr_details_app pre prs Hans Hcalm (bad :: rest) t)
    as (t' & l & Hl & Hrep & E).
  rewrite E. clear E. cbn [get_pr_details]. rewrite Hurl.
  cbn [lift bind exec]. rewrite Hbad, exec_await_error_channel.
  cbn [logging yields log result_of]. rewrite app_nil_r.
  split; [reflexivity |]. split; [| split; [| reflexivity]].
  - rewrite requests_app, requests_cons. cbn [is_request].
    assert (Hreq : requests l = List.length pre).
    { apply (f_equal (@List.length _)) in Hl. rewrite !length_map in Hl.
      rewrite Hl. clear. induction l as [| e l IH]; [reflexivity |].
      rewrite requests_cons. destruct e; cbn [is_request request_urls flat_map app];
        cbn [List.length]; fold (request_urls l); lia. }
    rewrite Hreq. destruct error_channel; cbn; lia.
  - rewrite reports_app, Hrep. destruct error_channel; reflexivity.
Qed.

End Enricher.

Section MoreEnricher.

Variable repr_float : Z -> string.
Variable w : world.
Variable error_channel : handler.

(** X8.  A give-up of the rate limiter ends the enrichment after the item whose
    answer caused it, even when that item is the last one: the details up to
    and including that item stay yielded, no later item is requested, and the
    give-up is reported once.  With an awaitable callback the generator then
    ends normally; with the default callback of [get_pr_details] it raises
    [TypeError]. *)
Theorem get_pr_details_gives_up (pre prs : list json) (last pr : json)
    (rest : list json) (url : string) (hdrs : headers) (t : nat)
    (Hans : Forall2 (answered w) pre prs) (Hcalm : Forall (calm w) pre)
    (Hurl : pull_request_url last = Ok url)
    (Hlast : forall t', net w t' url = Response pr hdrs)
    (Hgive : forall t', gives_up w t' hdrs = true) :
  let r := exec w t (get_pr_details repr_float (pre ++ last :: rest) error_channel) in
  yields r = (prs ++ [pr])%list /\
  requests (log r) = S (List.length pre) /\
  List.length (reports (log r)) = 1%nat /\
  result_of r = (if awaitable error_channel then Returned tt else Raised TypeError).
Proof.
  cbv zeta.
  destruct (get_pr_details_app repr_float w error_channel pre prs Hans Hcalm
              (last :: rest) t) as (t' & l & Hl & Hrep & E).
  rewrite E. clear E. cbn [get_pr_details]. rewrite Hurl.
  cbn [lift bind exec]. rewrite Hlast. cbn [exec].
  rewrite exec_bind, exec_github_ratelimiter.
  rewrite (gives_up_not_fails w (S t') hdrs (Hgive (S t'))), Hgive. cbv zeta.
  assert (Hreq : requests l = List.length pre).
  { apply (f_equal (@List.length _)) in Hl. rewrite !length_map in Hl.
    rewrite Hl. clear. induction l as [| e l IH]; [reflexivity |].
    rewrite requests_cons. destruct e; cbn [is_request request_urls flat_map app];
      cbn [List.length]; fold (request_urls l); lia. }
  assert (Htruthy : truthy (sleep_time_at w (S t') hdrs) = true).
  { apply truthy_sleep_time, gives_up_sleep_time, Hgive. }
  destruct error_channel; cbn [awaitable result_of ticks yields log callback_log];
    rewrite ?Htruthy; cbn [exec logging yielding yields log result_of app];
    rewrite ?app_nil_r;
    (split; [reflexivity |]);
    (split; [rewrite requests_app, requests_cons, Hreq; cbn; lia |]);
    (split; [rewrite reports_app, Hrep; reflexivity | reflexivity]).
Qed.

End MoreEnricher.

(* ================================================================= *)
(** ** What a scan selects *)

(** The loop that leaves a generator at the [N]-th item returns items the
    generator yields, in order, and at most [N] of them. *)
Lemma take_until_prefix {A Y R : Type} (w : world) (N : Z) (g : proc A R) :
  forall (chosen c : list A) (t : nat),
    result_of (exec (Y:=Y) w t (take_until g chosen N)) = Returned c ->
    exists k, c = (chosen ++ firstn k (yields (exec w t g)))%list /\
              (Z.of_nat (List.length chosen) < N -> Z.of_nat (List.length c) <= N).
Proof.
  induction g as [a | e | y k IH | u k IH | s k IH | k IH | n k IH | e k IH | ];
    intros chosen c t; cbn [take_until exec].
  - cbn. intros H. injection H as <-. exists O. rewrite app_nil_r. split; [reflexivity | lia].
  - discriminate.
  - destruct (Z.eqb_spec (Z.of_nat (List.length (chosen ++ [y]))) N) as [E | E].
    + cbn. intros H. injection H as <-. exists 1%nat. cbn.
      split; [reflexivity | lia].
    + intros H. destruct (IH _ _ _ H) as (j & -> & Hlen).
      exists (S j). cbn [yielding yields firstn].
      split; [rewrite <- app_assoc; reflexivity |]. intros Hlt. apply Hlen.
      rewrite length_app in *. cbn [List.length] in *. lia.
  - cbn [logging result_of yields]. apply IH.
  - destruct (datetime_fromtimestamp w s) as [local | x]; [apply IH | discriminate].
  - apply IH.
  - apply IH.
  - cbn [logging result_of yields]. apply IH.
  - discriminate.
Qed.

Lemma Forall_firstn {A : Type} (P : A -> Prop) (k : nat) (l : list A) :
  Forall P l -> Forall P (firstn k l).
Proof.
  intros H. revert k. induction H as [| x l Hx _ IH]; intros [| k]; cbn;
    constructor; auto.
Qed.

Section Selected.

Variable repr_float : Z -> string.
Variable w : world.

(** X9.  Whatever the API answers, what [choose_review] returns for an identity
    and a count of at least one is a selection of at most [N] items, each the
    detail of an input item that awaits a review from the identity, in the
    order of the input; its title names the count and the identity. *)
Theorem choose_review_selects (t : nat) (issues : list json) (N : Z) (user : string)
    (chosen : list json) (review_title : string)
    (Huser : nonempty (Some user) = true) (HN : 1 <= N)
    (H : result_of (exec (Y:=unit) w t (choose_review repr_float issues N (Some user)))
         = Returned (chosen, review_title)) :
  Z.of_nat (List.length chosen) <= N /\
  Forall (fun pr => has_pending_review user pr = true) chosen /\
  (exists k, chosen
             = firstn k (kept user
                           (yields (exec w t (get_pr_details repr_float issues
                                                lambda_True))))) /\
  review_title = "Oldest " ++ str_int N ++ " PR(s) for @" ++ user ++ ":".
Proof.
  unfold choose_review in H. rewrite Huser, exec_bind_ret in H. cbn [result_of] in H.
  destruct (result_of (exec (Y:=unit) w t
              (take_until
                 (pr_with_pending_review
                    (get_pr_details repr_float issues lambda_True) user) [] N)))
    as [c | e |] eqn:E; try discriminate H.
  injection H as <- <-.
  destruct (take_until_prefix w N _ [] c t E) as (k & -> & Hlen).
  destruct (exec_pr_with_pending_review user w
              (get_pr_details repr_float issues lambda_True) t) as (Hy & _).
  cbn [app] in *. rewrite Hy in *.
  split; [apply Hlen; cbn; lia |]. split; [| split].
  - apply Forall_firstn, kept_sound.
  - exists k. reflexivity.
  - reflexivity.
Qed.

End Selected.

(* ================================================================= *)
(** ** The reply *)

Lemma pick_req_details (issue : json) (d : list (string * json)) :
  pick issue req_details = Ok d ->
  exists v1 v2 v3 v4 v5,
    d = [("title", v1); ("body", v2); ("html_url", v3); ("created_at", v4);
         ("updated_at", v5)] /\
    getitem issue "title" = Ok v1 /\ getitem issue "body" = Ok v2 /\
    getitem issue "html_url" = Ok v3 /\ getitem issue "created_at" = Ok v4 /\
    getitem issue "updated_at" = Ok v5.
Proof.
  unfold req_details. cbn [pick].
  destruct (getitem issue "title") as [v1 |]; [| discriminate].
  destruct (getitem issue "body") as [v2 |]; [| discriminate].
  destruct (getitem issue "html_url") as [v3 |]; [| discriminate].
  destruct (getitem issue "created_at") as [v4 |]; [| discriminate].
  destruct (getitem issue "updated_at") as [v5 |]; [| discriminate].
  intros H. injection H as <-. exists v1, v2, v3, v4, v5. repeat split.
Qed.

Lemma pick_presentable (issue : json) :
  presentable issue <-> exists d, pick issue req_details = Ok d.
Proof.
  split.
  - intros H. unfold req_details in *. cbn [pick].
    destruct (H "title") as (v1 & ->); [cbn; auto |].
    destruct (H "body") as (v2 & ->); [cbn; auto |].
    destruct (H "html_url") as (v3 & ->); [cbn; auto |].
    destruct (H "created_at") as (v4 & ->); [cbn; auto |].
    destruct (H "updated_at") as (v5 & ->); [cbn; auto 6 |].
    eexists. reflexivity.
  - intros (d & H). apply pick_req_details in H.
    destruct H as (v1 & v2 & v3 & v4 & v5 & _ & H1 & H2 & H3 & H4 & H5).
    intros key Hin. unfold req_details in Hin. cbn [In] in Hin.
    destruct Hin as [<- | [<- | [<- | [<- | [<- | []]]]]]; eauto.
Qed.

(** X10.  [beautify_issues] keeps of every issue the five fields of [req_details]
    and nothing else: the result has one dict per issue, in order, whose keys
    are exactly those five and whose values are the issue's; any other key is
    gone.  Beautifying a beautified list changes nothing. *)
Theorem beautify_issues_projects (github_issue_list l : list json)
    (H : beautify_issues github_issue_list = Ok l) :
  Forall2 (fun issue out =>
             exists d, out = JDict d /\ map fst d = req_details /\
                       (forall key, In key req_details ->
                                    getitem out key = getitem issue key) /\
                       (forall key, ~ In key req_details ->
                                    getitem out key = Err (KeyError key)))
    github_issue_list l /\
  beautify_issues l = Ok l.
Proof.
  revert l H. induction github_issue_list as [| issue issues IH]; intros l H;
    cbn [beautify_issues] in H.
  - injection H as <-. split; [constructor | reflexivity].
  - destruct (pick issue req_details) as [d |] eqn:Hd; [| discriminate].
    destruct (beautify_issues issues) as [l' |]; [| discriminate].
    injection H as <-. destruct (IH l' eq_refl) as (Hall & Hidem).
    apply pick_req_details in Hd.
    destruct Hd as (v1 & v2 & v3 & v4 & v5 & -> & H1 & H2 & H3 & H4 & H5).
    split.
    + constructor; [| exact Hall]. eexists. split; [reflexivity |].
      split; [reflexivity |]. split.
      * intros key Hin. unfold req_details in Hin. cbn [In] in Hin.
        destruct Hin as [<- | [<- | [<- | [<- | [<- | []]]]]]; symmetry; assumption.
      * intros key Hout. unfold req_details in Hout. cbn [In] in Hout.
        cbn [getitem assoc].
        destruct (String.eqb_spec "title" key); [tauto |].
        destruct (String.eqb_spec "body" key); [tauto |].
        destruct (String.eqb_spec "html_url" key); [tauto |].
        destruct (String.eqb_spec "created_at" key); [tauto |].
        destruct (String.eqb_spec "updated_at" key); [tauto |].
        reflexivity.
    + cbn [beautify_issues]. rewrite Hidem. reflexivity.
Qed.

Lemma beautify_issues_presentable (github_issue_list : list json) :
  Forall presentable github_issue_list <->
  exists l, beautify_issues github_issue_list = Ok l.
Proof.
  induction github_issue_list as [| issue issues IH]; cbn [beautify_issues].
  - split; [intros _; eexists; reflexivity | constructor].
  - split.
    + intros H. apply Forall_cons_iff in H. destruct H as [Hi Hs].
      apply pick_presentable in Hi. destruct Hi as (d & ->).
      apply IH in Hs. destruct Hs as (l & ->). eexists. reflexivity.
    + intros (l & H).
      destruct (pick issue req_details) as [d |] eqn:Hd; [| discriminate].
      destruct (beautify_issues issues) as [l' |]; [| discriminate].
      constructor; [apply pick_presentable; eauto | apply IH; eauto].
Qed.

Section Reply.

Variable repr_container : json -> string.

(** The lines of a message, one per issue, numbered from [i + 1]. *)
Lemma issue_data_lines (issues : list json) :
  forall (i : Z) (lines : list string),
    issue_data repr_container i issues = Ok lines ->
    Forall2 (fun issue line =>
               exists k t u, getitem issue "title" = Ok t /\
                             getitem issue "html_url" = Ok u /\
                             line = entry repr_container k t u) issues lines /\
    forall k issue, nth_error issues k = Some issue ->
      exists t u, getitem issue "title" = Ok t /\ getitem issue "html_url" = Ok u /\
                  nth_error lines k = Some (entry repr_container (i + Z.of_nat k) t u).
Proof.
  induction issues as [| issue issues IH]; intros i lines H; cbn [issue_data] in H.
  - injection H as <-. split; [constructor |]. intros [| k] issue Hk; discriminate Hk.
  - destruct (getitem issue "title") as [t |] eqn:Ht; [| discriminate].
    destruct (getitem issue "html_url") as [u |] eqn:Hu; [| discriminate].
    destruct (issue_data repr_container (i + 1) issues) as [l' |] eqn:E; [| discriminate].
    injection H as <-. destruct (IH (i + 1) l' E) as (Hall & Hnth). split.
    + constructor; [| exact Hall]. exists i, t, u. repeat split; assumption.
    + intros [| k] issue' Hk; cbn [nth_error] in *.
      * injection Hk as <-. exists t, u. rewrite Z.add_0_r. repeat split; assumption.
      * destruct (Hnth k issue' Hk) as (t' & u' & Ht' & Hu' & Hl).
        exists t', u'. repeat split; try assumption.
        rewrite Hl. do 2 f_equal. lia.
Qed.

Lemma issue_data_total (issues : list json) :
  Forall (fun issue => exists t u, getitem issue "title" = Ok t /\
                                   getitem issue "html_url" = Ok u) issues ->
  forall i, exists lines, issue_data repr_container i issues = Ok lines.
Proof.
  induction 1 as [| issue issues (t & u & Ht & Hu) _ IH]; intros i; cbn [issue_data].
  - eexists. reflexivity.
  - rewrite Ht, Hu. destruct (IH (i + 1)) as (lines & ->). eexists. reflexivity.
Qed.

(** X11.  The message of [compose_message] has one entry per issue, in the order of
    the list, and the entry of the [k]-th issue (from 0) carries the number
    [k + 1], the title and the address of that issue. *)
Theorem compose_message_numbers (issues : list json) (message : string)
    (H : compose_message repr_container issues = Ok message) :
  exists lines,
    message = join newline lines /\
    List.length lines = List.length issues /\
    forall k issue, nth_error issues k = Some issue ->
      exists t u, getitem issue "title" = Ok t /\ getitem issue "html_url" = Ok u /\
                  nth_error lines k = Some (entry repr_container (Z.of_nat k) t u).
Proof.
  unfold compose_message in H.
  destruct (issue_data repr_container 0 issues) as [lines |] eqn:E; [| discriminate].
  injection H as <-. exists lines. split; [reflexivity |].
  destruct (issue_data_lines issues 0 lines E) as (Hall & Hnth). split.
  - symmetry. eapply Forall2_length. exact Hall.
  - exact Hnth.
Qed.

Lemma beautify_issues_titled (github_issue_list l : list json) :
  beautify_issues github_issue_list = Ok l ->
  Forall (fun out => exists t u, getitem out "title" = Ok t /\
                                 getitem out "html_url" = Ok u) l.
Proof.
  revert l. induction github_issue_list as [| issue issues IH]; intros l H;
    cbn [beautify_issues] in H.
  - injection H as <-. constructor.
  - destruct (pick issue req_details) as [d |] eqn:Hd; [| discriminate].
    destruct (beautify_issues issues) as [l' |]; [| discriminate].
    injection H as <-. apply pick_req_details in Hd.
    destruct Hd as (v1 & v2 & v3 & v4 & v5 & -> & _).
    constructor; [| apply IH; reflexivity].
    exists v1, v3. split; reflexivity.
Qed.

(** X12.  The reply can be composed exactly when every chosen item is a dict with
    the five fields [title], [body], [html_url], [created_at] and
    [updated_at]: after [beautify_issues], [compose_message] never fails.  The
    reply is then purple, carries the given title, and is flagged as short
    exactly when fewer items were chosen than asked for. *)
Theorem reply_for_presentable (chosen : list json) (reply_title : string) (n : Z) :
  (Forall presentable chosen <->
   exists reply, reply_for repr_container chosen reply_title n = Ok reply) /\
  (forall reply, reply_for repr_container chosen reply_title n = Ok reply ->
     color reply = purple /\ title reply = reply_title /\
     footer reply = (if Z.of_nat (List.length chosen) <? n
                     then Some "There weren't enough..." else None)).
Proof.
  split.
  - rewrite beautify_issues_presentable. unfold reply_for. split.
    + intros (l & Hl). rewrite Hl. unfold compose_message.
      destruct (issue_data_total l (beautify_issues_titled chosen l Hl) 0)
        as (lines & ->).
      eexists. reflexivity.
    + intros (reply & H). destruct (beautify_issues chosen); [eauto | discriminate].
  - intros reply H. unfold reply_for in H.
    destruct (beautify_issues chosen); [| discriminate].
    destruct (compose_message repr_container a); [| discriminate].
    injection H as <-. repeat split.
Qed.

End Reply.

(* ================================================================= *)
(** ** The shape of a command's run *)

Lemma exec_bind_returned {Y A B : Type} (w : world) (t t' : nat) (m : proc Y A)
    (f : A -> proc Y B) (ys : list Y) (l : list event) (a : A) :
  exec w t m = mkRun ys l t' (Returned a) ->
  exec w t (bind m f) =
  mkRun (ys ++ yields (exec w t' (f a))) (l ++ log (exec w t' (f a)))
    (ticks (exec w t' (f a))) (result_of (exec w t' (f a))).
Proof. intros H. rewrite exec_bind, H. reflexivity. Qed.

Lemma error_traffic_app (l l' : list event) :
  error_traffic l -> error_traffic l' -> error_traffic (l ++ l').
Proof. intros H H'. apply Forall_app. split; assumption. Qed.

Lemma exec_bind_assoc {Y A B C : Type} (w : world) (m : proc Y A)
    (g : A -> proc Y B) (h : B -> proc Y C) :
  forall t,
    exec w t (bind (bind m g) h) = exec w t (bind m (fun x => bind (g x) h)).
Proof.
  induction m as [a | e | y k IH | u k IH | s k IH | k IH | n k IH | e k IH | ];
    intros t; cbn [bind exec]; try reflexivity.
  - rewrite IH. reflexivity.
  - rewrite IH. reflexivity.
  - destruct (datetime_fromtimestamp w s) as [local | x]; [apply IH | reflexivity].
  - apply IH.
  - apply IH.
  - rewrite IH. reflexivity.
Qed.

Section CommandShape.

Variable repr_float : Z -> string.
Variable repr_container : json -> string.
Variable w : world.

Lemma exec_check_number (t : nat) (N : Z) :
  exists l,
    error_traffic l /\
    exec (Y:=unit) w t (check_number_of_issues N error_handler)
    = mkRun [] l t (Returned (checked_number N)).
Proof.
  rewrite exec_check_number_of_issues. unfold checked_number.
  destruct (N <? 1); [| destruct (N >? 10)];
    eexists; (split; [| reflexivity]); repeat constructor.
Qed.

Lemma exec_check_author (t : nat) (ctx : author_obj) (noun : option string) :
  exists l,
    error_traffic l /\
    exec (Y:=unit) w t (check_author ctx noun error_handler)
    = mkRun [] l t (Returned (checked_author ctx noun)).
Proof.
  unfold check_author, checked_author.
  destruct (noun_in noun issue_nouns); destruct (negb (noun_in noun ["all"; "ALL"]));
    destruct ctx; eexists; (split; [| reflexivity]); repeat constructor.
Qed.

Lemma reply_for_purple (chosen : list json) (reply_title : string) (n : Z)
    (reply : Embed) :
  reply_for repr_container chosen reply_title n = Ok reply -> color reply = purple.
Proof.
  unfold reply_for. intros H.
  destruct (beautify_issues chosen); [| discriminate].
  destruct (compose_message repr_container a); [| discriminate].
  injection H as <-. reflexivity.
Qed.

(** A stage followed by the composition and the sending of the reply. *)
Lemma exec_then_reply {A : Type} (t : nat) (m : proc unit A) (f : A -> result Embed) :
  emits fetch_event m ->
  (forall a reply, f a = Ok reply -> color reply = purple) ->
  let r := exec w t (a <- m ;; reply <- lift (f a) ;;
                     Emit (Send reply) (set_playing "The Waiting Game")) in
  exists mid,
    Forall fetch_event mid /\
    ((exists reply, color reply = purple /\
                    log r = (mid ++ [Send reply; Playing "The Waiting Game"])%list /\
                    result_of r = Returned tt) \/
     (log r = mid /\ result_of r <> Returned tt)).
Proof.
  intros Hm Hf. cbv zeta. rewrite exec_bind. cbv zeta.
  exists (log (exec w t m)). split; [apply emits_exec; exact Hm |].
  destruct (result_of (exec w t m)) as [a | e |].
  - destruct (f a) as [reply | e] eqn:E; cbn [lift bind exec set_playing logging log
                                             result_of yields ticks].
    + left. exists reply. split; [exact (Hf a reply E) |]. split; reflexivity.
    + right. rewrite app_nil_r. split; [reflexivity | discriminate].
  - right. split; [reflexivity | discriminate].
  - right. split; [reflexivity | discriminate].
Qed.

(** X13.  Every run of a command, whatever its name and arguments and whatever the
    API answers: first the reports of the input checks, then the status
    "On The Cue", then actions of the fetching stages only; a run that returns
    ends by sending one purple reply and setting the status
    "The Waiting Game", and a run that does not return sends no reply and
    leaves the status as it is. *)
Theorem command_function_run (t fuel : nat) (ctx : author_obj) (N : Z)
    (noun : option string) (name : string) (conf : config) :
  let r := exec (Y:=unit) w t
             (command_function repr_float repr_container fuel ctx N noun name conf) in
  exists l mid,
    error_traffic l /\ Forall fetch_event mid /\
    ((exists reply,
        color reply = purple /\
        log r = (l ++ Playing "On The Cue" :: mid
                   ++ [Send reply; Playing "The Waiting Game"])%list /\
        result_of r = Returned tt) \/
     (log r = (l ++ Playing "On The Cue" :: mid)%list /\ result_of r <> Returned tt)).
Proof.
  cbv zeta. unfold command_function.
  (* the checks of [rand] and [fq] *)
  assert (H1 : exists l1 vars,
             error_traffic l1 /\
             exec (Y:=unit) w t
               (if mem name ["rand"; "fq"] then
                  number_of_issues <- check_number_of_issues N error_handler ;;
                  pull_request <- check_pull_request noun error_handler ;;
                  Ret ((number_of_issues, Some pull_request, Some None) : locals)
                else Ret ((N, None, None) : locals))
             = mkRun [] l1 t (Returned vars)).
  { destruct (mem name ["rand"; "fq"]).
    - destruct (exec_checks w (Y:=unit) t N noun) as (l & Hl & E).
      exists l. eexists. split; [exact Hl | exact E].
    - exists []. eexists. split; [constructor | reflexivity]. }
  destruct H1 as (l1 & vars & Hl1 & E1).
  rewrite (exec_bind_returned _ _ _ _ _ _ _ _ E1). clear E1.
  (* the checks of [rq] *)
  assert (H2 : exists l2 vars',
             error_traffic l2 /\
             exec (Y:=unit) w t
               (if mem name ["rq"] then
                  number_of_issues <- check_number_of_issues N error_handler ;;
                  author <- check_author ctx noun error_handler ;;
                  Ret ((number_of_issues, Some true, Some author) : locals)
                else Ret vars)
             = mkRun [] l2 t (Returned vars')).
  { destruct (mem name ["rq"]).
    - destruct (exec_check_number t N) as (la & Hla & Ea).
      destruct (exec_check_author t ctx noun) as (lb & Hlb & Eb).
      exists (la ++ lb)%list. eexists. split; [apply error_traffic_app; assumption |].
      rewrite (exec_bind_returned _ _ _ _ _ _ _ _ Ea).
      rewrite (exec_bind_returned _ _ _ _ _ _ _ _ Eb). cbn. rewrite app_nil_r.
      reflexivity.
    - exists []. eexists. split; [constructor | reflexivity]. }
  destruct H2 as (l2 & vars' & Hl2 & E2).
  rewrite (exec_bind_returned _ _ _ _ _ _ _ _ E2). clear E2.
  destruct vars' as [[n pull_request] author].
  cbn [set_playing bind exec logging log result_of yields ticks app].
  exists (l1 ++ l2)%list.
  destruct pull_request as [pull_request |]; [destruct author as [author |] |].
  - (* the fetch and the selection *)
    match goal with
    | |- context [exec w t (bind ?m ?f)] =>
        destruct (exec_then_reply t
                    (issues <- m ;;
                     (if String.eqb name "rand" then choose_rand issues n
                      else if String.eqb name "rq"
                           then choose_review repr_float issues n author
                           else choose_feedback issues n pull_request))
                    (fun chosen => reply_for repr_container (fst chosen) (snd chosen) n))
          as (mid & Hmid & Hcases)
    end.
    + apply emits_bind; [apply emits_collect, emits_get_issues_loop |].
      intros issues. destruct (String.eqb name "rand").
      * unfold choose_rand. apply emits_bind; [apply emits_choices | intros; exact I].
      * destruct (String.eqb name "rq"); [apply emits_choose_review | exact I].
    + intros chosen reply. apply reply_for_purple.
    + exists mid. split; [apply error_traffic_app; assumption |].
      split; [exact Hmid |].
      rewrite exec_bind_assoc in Hcases.
      destruct Hcases as [(reply & Hc & Hlog & Hres) | (Hlog & Hres)].
      * left. exists reply. split; [exact Hc |]. rewrite Hlog, Hres.
        split; [| reflexivity]. rewrite <- app_assoc. reflexivity.
      * right. rewrite Hlog. split; [| exact Hres]. rewrite <- app_assoc. reflexivity.
  - exists []. split; [apply error_traffic_app; assumption |].
    split; [constructor |]. right. cbn. rewrite <- app_assoc. split; [reflexivity | discriminate].
  - exists []. split; [apply error_traffic_app; assumption |].
    split; [constructor |]. right. cbn. rewrite <- app_assoc. split; [reflexivity | discriminate].
Qed.

End CommandShape.

Section CommandPaths.

Variable repr_float : Z -> string.
Variable repr_container : json -> string.
Variable w : world.

(** X14.  A command whose name is none of [rand], [fq] and [rq] has no check that
    binds [pull_request]: it sets the status "On The Cue" and raises
    [UnboundLocalError] before any request is made. *)
Theorem command_function_unknown_name (t fuel : nat) (ctx : author_obj) (N : Z)
    (noun : option string) (name : string) (conf : config)
    (Hname : mem name ["rand"; "fq"; "rq"] = false) :
  exec (Y:=unit) w t
    (command_function repr_float repr_container fuel ctx N noun name conf)
  = mkRun [] [Playing "On The Cue"] t (Raised UnboundLocalError).
Proof.
  unfold command_function, mem in *. cbn [existsb] in *.
  destruct (String.eqb name "rand"); [discriminate |].
  destruct (String.eqb name "fq"); [discriminate |].
  destruct (String.eqb name "rq"); [discriminate |].
  reflexivity.
Qed.

(** The command [rq], from the run of [get_issues] it starts: the search is
    always one for pull requests. *)
Lemma exec_command_rq (t fuel : nat) (ctx : author_obj) (N : Z)
    (noun : option string) (conf : config) :
  let fetch := exec w t (get_issues repr_float fuel (repository conf) (closed conf)
                           true (include_labels conf) (exclude_labels conf)
                           (sort conf) (ascending_order conf) error_handler) in
  result_of fetch = Returned tt ->
  exists l,
    error_traffic l /\
    exec (Y:=unit) w t
      (command_function repr_float repr_container fuel ctx N noun "rq" conf) =
    let choice :=
      exec (Y:=unit) w (ticks fetch)
        (chosen <- choose_review repr_float (yields fetch) (checked_number N)
                     (checked_author ctx noun) ;;
         reply <- lift (reply_for repr_container (fst chosen) (snd chosen)
                          (checked_number N)) ;;
         Emit (Send reply) (set_playing "The Waiting Game")) in
    mkRun (yields choice) (l ++ Playing "On The Cue" :: log fetch ++ log choice)
      (ticks choice) (result_of choice).
Proof.
  intros fetch Hfetch. unfold command_function.
  change (mem "rq" ["rand"; "fq"]) with false.
  change (mem "rq" ["rq"]) with true. cbv iota. cbn [bind].
  destruct (exec_check_number w t N) as (la & Hla & Ea).
  destruct (exec_check_author w t ctx noun) as (lb & Hlb & Eb).
  exists (la ++ lb)%list. split; [apply error_traffic_app; assumption |].
  rewrite exec_bind_assoc, (exec_bind_returned _ _ _ _ _ _ _ _ Ea).
  rewrite exec_bind_assoc, (exec_bind_returned _ _ _ _ _ _ _ _ Eb).
  cbn [bind set_playing exec logging yields log ticks result_of app].
  change (String.eqb "rq" "rand") with false.
  change (String.eqb "rq" "rq") with true. cbv iota.
  rewrite exec_bind, exec_collect. cbv zeta. fold fetch. rewrite Hfetch.
  cbn [result_of ticks yields log app]. rewrite <- app_assoc. reflexivity.
Qed.

(** X15.  [rq N all] (or with an author whose name is empty): the reply is made of
    the first [N] pull requests of the search as they are, under the title of
    the whole review queue, and no detail is requested. *)
Theorem command_rq_all (t fuel : nat) (ctx : author_obj) (N : Z)
    (noun : option string) (conf : config) :
  let fetch := exec w t (get_issues repr_float fuel (repository conf) (closed conf)
                           true (include_labels conf) (exclude_labels conf)
                           (sort conf) (ascending_order conf) error_handler) in
  let n := checked_number N in
  let r := exec (Y:=unit) w t
             (command_function repr_float repr_container fuel ctx N noun "rq" conf) in
  (noun_in noun ["all"; "ALL"] = true -> checked_author ctx noun = None) /\
  (nonempty (checked_author ctx noun) = false ->
   result_of fetch = Returned tt ->
   forall reply,
     reply_for repr_container (slice_to (yields fetch) n)
       ("Oldest " ++ str_int n ++ " PR(s) in review queue:") n = Ok reply ->
     result_of r = Returned tt /\
     requests (log r) = requests (log fetch) /\
     exists l, error_traffic l /\
               log r = (l ++ Playing "On The Cue" :: log fetch
                          ++ [Send reply; Playing "The Waiting Game"])%list).
Proof.
  cbv zeta. split.
  - intros Hall. unfold checked_author. rewrite Hall. reflexivity.
  - intros Hnone Hfetch reply Hreply.
    destruct (exec_command_rq t fuel ctx N noun conf Hfetch) as (l & Hl & Hrun).
    rewrite Hrun. clear Hrun. cbv zeta. unfold choose_review. rewrite Hnone.
    cbn [bind fst snd].
    change ("Oldest " ++ str_int (checked_number N) ++ " PR(s) " ++ "in review queue"
            ++ ":")
      with ("Oldest " ++ str_int (checked_number N) ++ " PR(s) in review queue:").
    rewrite Hreply.
    cbn [lift bind exec set_playing logging result_of log yields ticks].
    split; [reflexivity |]. split.
    + rewrite requests_app, requests_cons, requests_app. cbn [is_request].
      assert (H0 : requests l = O).
      { clear - Hl. induction Hl as [| e l He _ IH]; [reflexivity |].
        rewrite requests_cons, IH. destruct e; try contradiction; reflexivity. }
      rewrite H0. cbn. lia.
    + exists l. split; [exact Hl | reflexivity].
Qed.

(** X16.  [rq N] for an author, end to end: when the search ends, every detail
    request is answered with a well-formed pull request and the rate limiter
    neither gives up nor fails on an answer, the reply is made of the first
    [N] matches of the filter, and the command makes as many detail requests
    as the position of the item that supplies the [N]-th match. *)
Theorem command_rq_author (t fuel : nat) (ctx : author_obj) (N : Z)
    (noun : option string) (conf : config) (user : string) (prs : list json) :
  let fetch := exec w t (get_issues repr_float fuel (repository conf) (closed conf)
                           true (include_labels conf) (exclude_labels conf)
                           (sort conf) (ascending_order conf) error_handler) in
  let n := checked_number N in
  let r := exec (Y:=unit) w t
             (command_function repr_float repr_container fuel ctx N noun "rq" conf) in
  let matches := flat_map (fun pr => repeat pr (count_pending user pr)) prs in
  checked_author ctx noun = Some user ->
  nonempty (Some user) = true ->
  result_of fetch = Returned tt ->
  Forall2 (answered w) (yields fetch) prs ->
  Forall well_formed_pr prs ->
  Forall (calm w) (yields fetch) ->
  forall reply,
    reply_for repr_container (firstn (Z.to_nat n) matches)
      ("Oldest " ++ str_int n ++ " PR(s) for @" ++ user ++ ":") n = Ok reply ->
    result_of r = Returned tt /\
    requests (log r)
    = (requests (log fetch) + needed (Z.to_nat n) (map (count_pending user) prs))%nat /\
    exists l mid, error_traffic l /\
                  log r = (l ++ Playing "On The Cue" :: log fetch ++ mid
                             ++ [Send reply; Playing "The Waiting Game"])%list.
Proof.
  cbv zeta. intros Hauthor Huser Hfetch Hans Hwf Hcalm reply Hreply.
  destruct (exec_command_rq t fuel ctx N noun conf Hfetch) as (l & Hl & Hrun).
  rewrite Hrun. clear Hrun. cbv zeta. rewrite Hauthor. unfold choose_review.
  rewrite Huser. rewrite exec_bind_assoc.
  pose proof (checked_number_range N) as Hn.
  destruct (scan_spec repr_float w user _ prs Hans Hwf Hcalm [] (checked_number N)
              (ticks (exec w t (get_issues repr_float fuel (repository conf)
                                  (closed conf) true (include_labels conf)
                                  (exclude_labels conf) (sort conf)
                                  (ascending_order conf) error_handler))))
    as (Hreq & _ & Hres); [cbn; lia |].
  cbn [List.length Z.of_nat app] in Hreq, Hres. rewrite Z.sub_0_r in Hreq, Hres.
  rewrite exec_bind. cbv zeta. rewrite Hres.
  cbn [bind fst snd].
  change ("Oldest " ++ str_int (checked_number N) ++ " PR(s) " ++ ("for @" ++ user)
          ++ ":")
    with ("Oldest " ++ str_int (checked_number N) ++ " PR(s) for @" ++ user ++ ":").
  rewrite Hreply.
  cbn [lift bind exec set_playing logging result_of log yields ticks].
  split; [reflexivity |].
  assert (H0 : requests l = O).
  { clear - Hl. induction Hl as [| e l He _ IH]; [reflexivity |].
    rewrite requests_cons, IH. destruct e; try contradiction; reflexivity. }
  split.
  - rewrite requests_app, requests_cons, !requests_app, H0, Hreq. cbn. lia.
  - exists l. eexists. split; [exact Hl | reflexivity].
Qed.

End CommandPaths.

Section RandCommand.

Variable repr_float : Z -> string.
Variable repr_container : json -> string.
Variable w : world.

Lemma error_traffic_no_reply (l : list event) (reply : Embed) :
  error_traffic l -> In (Send reply) l -> color reply = red.
Proof.
  intros H Hin. unfold error_traffic in H. rewrite Forall_forall in H.
  exact (H _ Hin).
Qed.

Lemma fetch_events_no_reply (l : list event) (reply : Embed) :
  Forall fetch_event l -> In (Send reply) l -> color reply = red.
Proof.
  intros H Hin. rewrite Forall_forall in H. exact (proj1 (H _ Hin)).
Qed.

(** X17.  A [rand] command never sends a reply flagged as short: a reply it sends
    holds exactly as many picks as the checked count asks for, since an empty
    fetch makes the command raise instead. *)
Theorem command_rand_never_short (t fuel : nat) (ctx : author_obj) (N : Z)
    (noun : option string) (conf : config) (reply : Embed) :
  let r := exec (Y:=unit) w t
             (command_function repr_float repr_container fuel ctx N noun "rand" conf) in
  In (Send reply) (log r) -> color reply = purple ->
  result_of r = Returned tt /\ footer reply = None /\
  title reply = str_int (checked_number N) ++ " random picks out of "
                ++ str_int (Z.of_nat (List.length
                     (yields (exec w t
                        (get_issues repr_float fuel (repository conf) (closed conf)
                           (checked_kind noun) (include_labels conf)
                           (exclude_labels conf) (sort conf) (ascending_order conf)
                           error_handler))))) ++ ":".
Proof.
  cbv zeta. intros Hin Hpurple.
  set (fetch := exec w t (get_issues repr_float fuel (repository conf) (closed conf)
                            (checked_kind noun) (include_labels conf)
                            (exclude_labels conf) (sort conf) (ascending_order conf)
                            error_handler)).
  assert (Hfetch_log : Forall fetch_event (log fetch))
    by (apply emits_exec, emits_get_issues_loop).
  unfold command_function in *.
  change (mem "rand" ["rand"; "fq"]) with true in *.
  change (mem "rand" ["rq"]) with false in *. cbv iota in *.
  destruct (exec_checks w (Y:=unit) t N noun) as (l & Hl & El).
  rewrite (exec_bind_returned _ _ _ _ _ _ _ _ El) in *. clear El.
  cbn [bind set_playing exec logging yields log ticks result_of app] in *.
  change (String.eqb "rand" "rand") with true in *. cbv iota in *.
  rewrite exec_bind, exec_collect in *. cbv zeta in *. fold fetch in Hin |- *.
  cbn [result_of ticks yields log app] in *.
  apply in_app_or in Hin. destruct Hin as [Hin | Hin];
    [rewrite (error_traffic_no_reply l reply Hl Hin) in Hpurple; discriminate |].
  cbn [In] in Hin. destruct Hin as [Hin | Hin]; [discriminate |].
  destruct (result_of fetch) as [[] | e |]; cbn [log result_of] in *;
    try (rewrite (fetch_events_no_reply _ reply Hfetch_log Hin) in Hpurple; discriminate).
  apply in_app_or in Hin. destruct Hin as [Hin | Hin];
    [rewrite (fetch_events_no_reply _ reply Hfetch_log Hin) in Hpurple; discriminate |].
  pose proof (checked_number_range N) as Hn.
  destruct (yields fetch) as [| issue issues] eqn:Ey.
  - rewrite exec_bind, exec_choose_rand_empty in * by lia.
    cbn [result_of log] in Hin. contradiction.
  - destruct (exec_choices (Y:=unit) w (issue :: issues) ltac:(discriminate)
                (Z.to_nat (checked_number N)) (ticks fetch)) as (c & Ec & Hc & _).
    unfold choose_rand in *. rewrite exec_bind_assoc, exec_bind, Ec in *.
    cbv zeta in *. cbn [result_of ticks yields log bind fst snd app] in *.
    destruct (reply_for repr_container c _ (checked_number N)) as [reply' | e] eqn:Er;
      cbn [lift bind exec set_playing logging result_of log yields ticks] in *.
    + cbn [In] in Hin. destruct Hin as [Hin | [Hin | []]]; [| discriminate].
      injection Hin as ->. split; [reflexivity |].
      unfold reply_for in Er.
      destruct (beautify_issues c); [| discriminate].
      destruct (compose_message repr_container a); [| discriminate].
      injection Er as <-. cbn [footer title]. split; [| reflexivity].
      destruct (Z.ltb_spec (Z.of_nat (List.length c)) (checked_number N));
        [lia | reflexivity].
    + contradiction.
Qed.

End RandCommand.

(* ================================================================= *)
(** ** The properties on concrete inputs *)

Lemma plenty_passes (w : world) : passes w Examples.plenty.
Proof. split; [reflexivity | intros t; reflexivity]. Qed.

Lemma github_serves (L : list json) (url : string) :
  (List.length L <= 100)%nat -> serves (Examples.github L url) url L.
Proof.
  intros Hlen t page Hpage. right. unfold Examples.github. cbn [net].
  destruct (String.eqb_spec (search_url url page) (search_url url 1)) as [E | E].
  - apply search_url_inj in E. subst page.
    exists (Examples.page L (Z.of_nat (List.length L))), Examples.plenty.
    split; [reflexivity |]. split; [reflexivity |]. split; [| reflexivity].
    unfold page_of. cbn [Z.sub Z.mul Z.to_nat skipn Z.opp Z.add Z.pos_sub].
    rewrite firstn_all2 by exact Hlen. reflexivity.
  - exists (Examples.page [] (Z.of_nat (List.length L))), Examples.plenty.
    split; [reflexivity |]. split; [reflexivity |]. split; [| reflexivity].
    unfold page_of. rewrite skipn_all2; [reflexivity |].
    assert (page <> 1) by (intros ->; apply E; reflexivity). lia.
Qed.

Lemma details_answered (first : headers) :
  Forall2 (answered (Examples.review_world first)) Examples.three Examples.details.
Proof.
  repeat constructor; eexists; (split; [reflexivity |]); intros t; eexists; reflexivity.
Qed.

Lemma details_well_formed : Forall well_formed_pr Examples.details.
Proof.
  repeat constructor; eexists; (split; [reflexivity |]);
    repeat constructor; eexists; reflexivity.
Qed.

Lemma details_calm : Forall (calm (Examples.review_world Examples.plenty)) Examples.three.
Proof.
  repeat apply Forall_cons; try apply Forall_nil; intros url t pr hdrs Hurl Hnet;
    injection Hurl as <-; cbn in Hnet; injection Hnet as _ <-; apply plenty_passes.
Qed.

Lemma github_never_times_out (L : list json) (url : string) :
  ~ may_time_out (Examples.github L url) url.
Proof.
  intros (t & page & H). unfold Examples.github in H. cbn [net] in H.
  destruct (String.eqb (search_url url page) (search_url url 1)); discriminate H.
Qed.

Lemma github_never_gives_up (L : list json) (url : string) :
  ~ may_give_up (Examples.github L url) url.
Proof.
  intros (t & page & data & hdrs & t' & H & G).
  unfold Examples.github in H. cbn [net] in H.
  destruct (String.eqb (search_url url page) (search_url url 1));
    injection H as _ <-; discriminate G.
Qed.

(** C1 on a search that holds three issues: they are all fetched. *)
Lemma get_issues_yields_total_count_witness :
  yields (exec (Examples.github Examples.three (Examples.conf_url false)) 0
            (get_issues Examples.repr_float 1 "PointCloudLibrary/pcl" false false
               [] ["needs: author reply"] "updated" true default_error_handler))
  = Examples.three.
Proof.
  apply (get_issues_yields_total_count Examples.repr_float
           (Examples.github Examples.three (Examples.conf_url false)) 0 1
           Examples.three).
  - apply github_serves. cbn. lia.
  - cbn. lia.
  - apply github_never_times_out.
  - apply github_never_gives_up.
Defined.

(** C1 as stated fails on an error status and on an API that serves more
    than it reports.  Page 1 holds three of the five issues the API reports
    and the request for page 2 is answered with an error status: three items
    are yielded, fewer than the total count, although no request times out
    and the limiter never gives up, and the sequence ends with an exception.
    Page 1 holds two issues of a reported total of one: two items are
    yielded, more than the total count. *)
Lemma get_issues_yields_total_count_counterexample :
  let url := Examples.conf_url false in
  let r := exec Examples.flaky 0
             (get_issues Examples.repr_float 3 "PointCloudLibrary/pcl" false false
                [] ["needs: author reply"] "updated" true default_error_handler) in
  let r' := exec Examples.overfull 0
              (get_issues Examples.repr_float 3 "PointCloudLibrary/pcl" false false
                 [] ["needs: author reply"] "updated" true default_error_handler) in
  (net Examples.flaky 0 (search_url url 1)
   = Response (Examples.page Examples.three 5) Examples.plenty /\
   yields r = Examples.three /\
   reports (log r) = [] /\
   ~ may_time_out Examples.flaky url /\
   ~ may_give_up Examples.flaky url /\
   result_of r = Raised ClientError) /\
  (net Examples.overfull 0 (search_url url 1)
   = Response (Examples.page [Examples.issue 1 "a"; Examples.issue 2 "b"] 1)
       Examples.plenty /\
   yields r' = [Examples.issue 1 "a"; Examples.issue 2 "b"] /\
   result_of r' = Returned tt).
Proof.
  cbv zeta. split.
  - split; [vm_compute; reflexivity |]. split; [vm_compute; reflexivity |].
    split; [vm_compute; reflexivity |]. split; [| split].
    + intros (t & page & H). unfold Examples.flaky in H. cbn [net] in H.
      destruct (String.eqb _ _); discriminate H.
    + intros (t & page & data & hdrs & t' & H & G).
      unfold Examples.flaky in H. cbn [net] in H.
      destruct (String.eqb _ _); [| discriminate H].
      injection H as _ <-. discriminate G.
    + vm_compute. reflexivity.
  - split; [vm_compute; reflexivity |]. split; vm_compute; reflexivity.
Qed.



(** C3 on three pull requests, the second being the first that awaits alice. *)
Lemma choose_review_scan_witness :
  requests (log (exec (Y:=unit) (Examples.review_world Examples.plenty) 0
                   (choose_review Examples.repr_float Examples.three 1 (Some "alice"))))
  = needed (Z.to_nat 1) (map (count_pending "alice") Examples.details).
Proof.
  apply (choose_review_scan Examples.repr_float (Examples.review_world Examples.plenty)
           0 Examples.three 1 "alice").
  - reflexivity.
  - lia.
  - apply details_answered.
  - apply details_well_formed.
  - apply details_calm.
Defined.

(** C3 as stated fails when the rate limiter gives up: the answer for pull
    request 1, which does not await alice, is the last one before the limit,
    and the scan ends after one request (with the [TypeError] of awaiting the
    default callback of [get_pr_details]) although the first pull request that
    awaits alice is the second. *)
Lemma choose_review_scan_counterexample :
  let r := exec (Y:=unit) (Examples.review_world Examples.exhausted) 0
             (choose_review Examples.repr_float Examples.three 1 (Some "alice")) in
  Forall2 (answered (Examples.review_world Examples.exhausted))
    Examples.three Examples.details /\
  position "alice" 1 Examples.details = 2%nat /\
  requests (log r) = 1%nat /\
  result_of r = Raised TypeError /\
  requests (log r) <> position "alice" 1 Examples.details.
Proof.
  cbv zeta.
  split; [apply details_answered |].
  split; [reflexivity |].
  split; [reflexivity |].
  split; [reflexivity |].
  vm_compute. discriminate.
Qed.

(** C4 on a stream of the three detailed pull requests. *)
Lemma pr_with_pending_review_filters_witness :
  ~ In (Examples.pull 1 ["bob"])
      (yields (exec Examples.offline 0
                 (pr_with_pending_review (yield_each Examples.details) "alice"))).
Proof.
  apply (pr_with_pending_review_filters "alice" Examples.offline 0
           (yield_each Examples.details)).
  reflexivity.
Defined.


(** C6 on a feedback queue of three issues when five are asked for. *)
Lemma choose_feedback_oldest_prefix_witness :
  exists reply,
    In (Send reply)
      (log (exec (Y:=unit) (Examples.github Examples.three (Examples.conf_url false)) 0
              (command_function Examples.repr_float Examples.repr_container 1
                 (User "alice") 5 (Some "issue") "fq" Examples.conf)))
    /\ footer reply = Some "There weren't enough...".
Proof.
  destruct (choose_feedback_oldest_prefix Examples.repr_float Examples.repr_container
              (Examples.github Examples.three (Examples.conf_url false)) 0
              Examples.three 5 false)
    as (_ & _ & _ & _ & H).
  specialize (H 1%nat (User "alice") (Some "issue") Examples.conf eq_refl).
  cbv zeta in H.
  edestruct H as (_ & (l & Hl) & Hfoot); [reflexivity |].
  eexists. split; [| exact Hfoot].
  rewrite Hl. apply in_or_app. right. left. reflexivity.
Defined.



(** C8 on a request for 50 issues. *)
Lemma malformed_input_defaults_witness :
  result_of (exec (Y:=unit) Examples.offline 0 (check_number_of_issues 50 error_handler))
  = Returned 10.
Proof.
  apply (@malformed_input_defaults unit Examples.offline 0 error_handler eq_refl 50 None).
  right. lia.
Defined.

(** C9 on a pull request that lists alice twice. *)
Lemma pr_with_pending_review_repeats_witness :
  yields (exec Examples.offline 0
            (pr_with_pending_review (yield_each [Examples.twice]) "alice"))
  = [Examples.twice; Examples.twice].
Proof.
  apply (pr_with_pending_review_repeats "alice" Examples.offline 0
           (yield_each [Examples.twice])).
  repeat constructor. eexists. split; [reflexivity |].
  repeat constructor; eexists; reflexivity.
Defined.

(** C10 on a [rand] command whose search finds nothing. *)
Lemma choose_rand_empty_raises_witness :
  result_of (exec (Y:=unit) (Examples.github [] (Examples.conf_url false)) 0
               (command_function Examples.repr_float Examples.repr_container 1
                  (User "alice") 5 (Some "issue") "rand" Examples.conf))
  = Raised IndexError.
Proof.
  assert (HN : 1 <= 1) by lia.
  apply (proj2 (choose_rand_empty_raises Examples.repr_float Examples.repr_container
                  (Examples.github [] (Examples.conf_url false)) 0 1 HN)
           5 1%nat (User "alice") (Some "issue") Examples.conf);
    reflexivity.
Defined.

(* ================================================================= *)
(** ** The further properties on concrete inputs *)

Lemma three_presentable : Forall presentable Examples.three.
Proof.
  repeat constructor; intros key Hin; cbn in Hin;
    repeat (destruct Hin as [<- | Hin]; [eexists; reflexivity |]); destruct Hin.
Qed.

Lemma hub_answered : Forall2 (answered Examples.hub) Examples.three Examples.details.
Proof.
  repeat constructor; eexists; (split; [reflexivity |]); intros t; eexists;
    vm_compute; reflexivity.
Qed.

Lemma hub_calm : Forall (calm Examples.hub) Examples.three.
Proof.
  repeat apply Forall_cons; try apply Forall_nil; intros url t pr hdrs Hurl Hnet;
    injection Hurl as <-; vm_compute in Hnet; injection Hnet as _ <-;
    apply plenty_passes.
Qed.

Lemma generous_oversupplies : oversupplies Examples.generous 1.
Proof.
  intros t url. eexists _, _, _. split; [reflexivity |].
  split; [reflexivity |]. split; [reflexivity |]. split; [cbn; lia |].
  apply plenty_passes.
Qed.

(** X3 on an API that answers with an error status: the only action is the
    request for page 1. *)
Lemma get_issues_unreported_failures_witness :
  exec Examples.failing 0
    (get_issues Examples.repr_float 1 "PointCloudLibrary/pcl" false false
       [] ["needs: author reply"] "updated" true error_handler)
  = mkRun [] [Request (search_url (Examples.conf_url false) 1)] 1 (Raised ClientError).
Proof.
  apply (proj2 (get_issues_unreported_failures Examples.repr_float Examples.failing
                  0 0 "PointCloudLibrary/pcl" false false [] ["needs: author reply"]
                  "updated" true error_handler eq_refl)).
  reflexivity.
Defined.

(** X4 on an API whose pages hold two issues out of a reported total of one:
    after five requests the fetch is still running. *)
Lemma get_issues_never_ends_witness :
  let r := exec Examples.generous 0
             (get_issues Examples.repr_float 5 "PointCloudLibrary/pcl" false false
                [] ["needs: author reply"] "updated" true error_handler) in
  result_of r = Diverged /\ requests (log r) = 5%nat /\ reports (log r) = [] /\
  ((1 <= 5)%nat -> 1 < Z.of_nat (List.length (yields r))).
Proof.
  assert (HT : 0 <= 1) by lia.
  exact (get_issues_never_ends Examples.repr_float Examples.generous 1
           generous_oversupplies HT 0 5 "PointCloudLibrary/pcl" false false
           [] ["needs: author reply"] "updated" true error_handler).
Defined.

(** X6 on the three pull requests of the review world. *)
Lemma get_pr_details_enriches_witness :
  yields (exec (Examples.review_world Examples.plenty) 0
            (get_pr_details Examples.repr_float Examples.three lambda_True))
  = Examples.details.
Proof.
  apply (get_pr_details_enriches Examples.repr_float
           (Examples.review_world Examples.plenty) lambda_True
           Examples.three Examples.details 0).
  - apply details_answered.
  - apply details_calm.
Defined.

(** X7 when the detail request of the second of three pull requests times
    out, with the default callback. *)
Lemma get_pr_details_timeout_witness :
  let r := exec Examples.stalled 0
             (get_pr_details Examples.repr_float Examples.three lambda_True) in
  yields r = [Examples.pull 1 ["bob"]] /\
  requests (log r) = 2%nat /\
  reports (log r)
  = [Report "API Request timed out" "Please check https://www.githubstatus.com/"] /\
  result_of r = Raised TypeError.
Proof.
  apply (get_pr_details_timeout Examples.repr_float Examples.stalled lambda_True
           [Examples.issue 1 "a"] [Examples.pull 1 ["bob"]] (Examples.issue 2 "b")
           [Examples.issue 3 "c"] (Examples.repo_url ++ "2") 0).
  - repeat constructor. eexists. split; [reflexivity |]. intros t. eexists. reflexivity.
  - apply Forall_cons; [| apply Forall_nil]. intros url t pr hdrs Hurl Hnet.
    injection Hurl as <-. cbn in Hnet. injection Hnet as _ <-. apply plenty_passes.
  - reflexivity.
  - intros t'. reflexivity.
Defined.

(** X8 when the answer for the first of three pull requests is the last one
    before the limit, with the default callback. *)
Lemma get_pr_details_gives_up_witness :
  let r := exec (Examples.review_world Examples.exhausted) 0
             (get_pr_details Examples.repr_float Examples.three lambda_True) in
  yields r = [Examples.pull 1 ["bob"]] /\
  requests (log r) = 1%nat /\
  List.length (reports (log r)) = 1%nat /\
  result_of r = Raised TypeError.
Proof.
  apply (get_pr_details_gives_up Examples.repr_float
           (Examples.review_world Examples.exhausted) lambda_True
           [] [] (Examples.issue 1 "a") (Examples.pull 1 ["bob"])
           [Examples.issue 2 "b"; Examples.issue 3 "c"] (Examples.repo_url ++ "1")
           Examples.exhausted 0).
  - constructor.
  - constructor.
  - reflexivity.
  - intros t'. reflexivity.
  - intros t'. reflexivity.
Defined.

(** X9 on the review world: one pull request asked for alice. *)
Lemma choose_review_selects_witness :
  Z.of_nat (List.length [Examples.pull 2 ["alice"; "bob"]]) <= 1 /\
  Forall (fun pr => has_pending_review "alice" pr = true)
    [Examples.pull 2 ["alice"; "bob"]] /\
  (exists k, [Examples.pull 2 ["alice"; "bob"]]
             = firstn k (kept "alice"
                           (yields (exec (Examples.review_world Examples.plenty) 0
                                      (get_pr_details Examples.repr_float Examples.three
                                         lambda_True))))) /\
  "Oldest 1 PR(s) for @alice:" = "Oldest " ++ str_int 1 ++ " PR(s) for @" ++ "alice" ++ ":".
Proof.
  assert (HN : 1 <= 1) by lia.
  apply (choose_review_selects Examples.repr_float
           (Examples.review_world Examples.plenty) 0 Examples.three 1 "alice"
           [Examples.pull 2 ["alice"; "bob"]] "Oldest 1 PR(s) for @alice:"
           eq_refl HN).
  vm_compute. reflexivity.
Defined.

(** X10 on three search results: the beautified list is a fixed point. *)
Lemma beautify_issues_projects_witness :
  exists l, beautify_issues Examples.three = Ok l /\ beautify_issues l = Ok l.
Proof.
  destruct (beautify_issues Examples.three) as [l | e] eqn:E.
  - exists l. split; [reflexivity |].
    exact (proj2 (beautify_issues_projects Examples.three l E)).
  - vm_compute in E. discriminate E.
Defined.

(** X11 on three search results: the message has three entries. *)
Lemma compose_message_numbers_witness :
  exists message lines,
    compose_message Examples.repr_container Examples.three = Ok message /\
    message = join newline lines /\
    List.length lines = 3%nat.
Proof.
  destruct (compose_message Examples.repr_container Examples.three)
    as [message | e] eqn:E.
  - destruct (compose_message_numbers Examples.repr_container Examples.three message E)
      as (lines & Hm & Hlen & _).
    exists message, lines. split; [reflexivity |]. split; [exact Hm | exact Hlen].
  - vm_compute in E. discriminate E.
Defined.

(** X12 on three search results when five are asked for. *)
Lemma reply_for_presentable_witness :
  exists reply,
    reply_for Examples.repr_container Examples.three "Oldest 5 issue(s)" 5 = Ok reply.
Proof.
  exact (proj1 (proj1 (reply_for_presentable Examples.repr_container Examples.three
                         "Oldest 5 issue(s)" 5))
           three_presentable).
Defined.

(** X14 on a command named [what]. *)
Lemma command_function_unknown_name_witness :
  exec (Y:=unit) Examples.offline 0
    (command_function Examples.repr_float Examples.repr_container 1
       (User "alice") 5 (Some "issue") "what" Examples.conf)
  = mkRun [] [Playing "On The Cue"] 0 (Raised UnboundLocalError).
Proof.
  apply (command_function_unknown_name Examples.repr_float Examples.repr_container
           Examples.offline 0 1 (User "alice") 5 (Some "issue") "what" Examples.conf).
  reflexivity.
Defined.

(** X15 on [rq 2 all]: one request, the one of the search. *)
Lemma command_rq_all_witness :
  let r := exec (Y:=unit) Examples.hub 0
             (command_function Examples.repr_float Examples.repr_container 1
                (User "alice") 2 (Some "all") "rq" Examples.conf) in
  result_of r = Returned tt /\ requests (log r) = 1%nat.
Proof.
  cbv zeta.
  destruct (command_rq_all Examples.repr_float Examples.repr_container Examples.hub
              0 1 (User "alice") 2 (Some "all") Examples.conf) as [_ H].
  cbv zeta in H. specialize (H eq_refl).
  assert (Hfetch : exec Examples.hub 0
                     (get_issues Examples.repr_float 1 (repository Examples.conf)
                        (closed Examples.conf) true (include_labels Examples.conf)
                        (exclude_labels Examples.conf) (sort Examples.conf)
                        (ascending_order Examples.conf) error_handler)
                   = mkRun Examples.three [Request (search_url (Examples.conf_url true) 1)]
                       1 (Returned tt))
    by (vm_compute; reflexivity).
  rewrite Hfetch in H. cbn [result_of yields log] in H. specialize (H eq_refl).
  destruct (reply_for Examples.repr_container
              (slice_to Examples.three (checked_number 2))
              ("Oldest " ++ str_int (checked_number 2) ++ " PR(s) in review queue:")
              (checked_number 2)) as [reply | e] eqn:E.
  - destruct (H reply eq_refl) as (Hr & Hreq & _). split; [exact Hr | exact Hreq].
  - vm_compute in E. discriminate E.
Defined.

(** X16 on [rq 1] by alice: the search and two detail requests. *)
Lemma command_rq_author_witness :
  let r := exec (Y:=unit) Examples.hub 0
             (command_function Examples.repr_float Examples.repr_container 1
                (User "alice") 1 None "rq" Examples.conf) in
  result_of r = Returned tt /\ requests (log r) = 3%nat.
Proof.
  cbv zeta.
  pose proof (command_rq_author Examples.repr_float Examples.repr_container Examples.hub
                0 1 (User "alice") 1 None Examples.conf "alice" Examples.details) as H.
  cbv zeta in H. specialize (H eq_refl eq_refl).
  assert (Hfetch : exec Examples.hub 0
                     (get_issues Examples.repr_float 1 (repository Examples.conf)
                        (closed Examples.conf) true (include_labels Examples.conf)
                        (exclude_labels Examples.conf) (sort Examples.conf)
                        (ascending_order Examples.conf) error_handler)
                   = mkRun Examples.three [Request (search_url (Examples.conf_url true) 1)]
                       1 (Returned tt))
    by (vm_compute; reflexivity).
  rewrite Hfetch in H. cbn [result_of yields log] in H.
  specialize (H eq_refl hub_answered details_well_formed hub_calm).
  destruct (reply_for Examples.repr_container
              (firstn (Z.to_nat (checked_number 1))
                 (flat_map (fun pr => repeat pr (count_pending "alice" pr))
                    Examples.details))
              ("Oldest " ++ str_int (checked_number 1) ++ " PR(s) for @" ++ "alice" ++ ":")
              (checked_number 1)) as [reply | e] eqn:E.
  - destruct (H reply eq_refl) as (Hr & Hreq & _). split; [exact Hr | exact Hreq].
  - vm_compute in E. discriminate E.
Defined.

(** X17 on [rand 2 issue] over three issues. *)
Lemma command_rand_never_short_witness :
  exists reply,
    In (Send reply)
      (log (exec (Y:=unit) (Examples.github Examples.three (Examples.conf_url false)) 0
              (command_function Examples.repr_float Examples.repr_container 1
                 (User "alice") 2 (Some "issue") "rand" Examples.conf)))
    /\ footer reply = None.
Proof.
  assert (H : exists reply,
             In (Send reply)
               (log (exec (Y:=unit)
                       (Examples.github Examples.three (Examples.conf_url false)) 0
                       (command_function Examples.repr_float Examples.repr_container 1
                          (User "alice") 2 (Some "issue") "rand" Examples.conf)))
             /\ color reply = purple).
  { vm_compute. eexists. split; [right; right; left; reflexivity | reflexivity]. }
  destruct H as (reply & Hin & Hpurple). exists reply. split; [exact Hin |].
  exact (proj1 (proj2 (command_rand_never_short Examples.repr_float
                         Examples.repr_container
                         (Examples.github Examples.three (Examples.conf_url false))
                         0 1 (User "alice") 2 (Some "issue") Examples.conf reply
                         Hin Hpurple))).
Defined.
